(** * The query-safety gateway of ipython-neo4j

    A shallow embedding of [src/ipython_neo4j/magic.py]: the statement
    splitter ([_split_statements] and its separator pattern), the EXPLAIN
    probe ([_explain_query_type]), the precedence resolver
    ([_most_restrictive_type]), the write gate and the execution loop of
    [_run_cypher].

    Strings.  A Python [str] is modelled as a [string] whose characters are
    the code points 0..255; [is_space] and [lower_char] are Python's
    [str.isspace] and [str.lower] on that range.

    Effects.  The driver is an interface ([Database]); the code that calls
    it lives in the monad [M], which threads the driver, records every
    driver call and every displayed block in a trace, and carries Python
    exceptions as [Raise].  Every call to the driver can raise:
    [execute_query], and [close] as well.

    Further parts: the two query magics and the end of [_run_cypher],
    [_extract_query_from_line], the session-wide connection of
    [connection.py] with the [%neo4j] magic and its env file, and, of
    [result.py], [to_graph], [_repr_html_] and [_neo4j_value_to_python]. *)

From Stdlib Require Import Ascii String NArith Bool.
From stdpp Require Import base option list gmap strings.

Local Open Scope N_scope.

(** ** Characters *)

Definition code (c : ascii) : N := N_of_ascii c.

(** [str.isspace] on one character, which is also what [\s] matches in a
    [str] pattern: TAB..CR, FS..US, SPACE, NEL and NBSP. *)
Definition is_space (c : ascii) : bool :=
  let n := code c in
  ((9 <=? n) && (n <=? 13)) || ((28 <=? n) && (n <=? 32))
  || (n =? 133) || (n =? 160).

(** [str.lower] on one character: A..Z and the Latin-1 capitals. *)
Definition lower_char (c : ascii) : ascii :=
  let n := code c in
  if ((65 <=? n) && (n <=? 90))
     || ((192 <=? n) && (n <=? 222) && negb (n =? 215))
  then ascii_of_N (n + 32) else c.

Definition newline : ascii := ascii_of_N 10.
Definition semicolon : ascii := ascii_of_N 59.

Local Close Scope N_scope.

Definition chars (s : string) : list ascii := list_ascii_of_string s.
Definition str (l : list ascii) : string := string_of_list_ascii l.

Definition lower (s : string) : string := str (map lower_char (chars s)).

(** Truthiness of a [str]: the empty string is false. *)
Definition truthy (s : string) : bool :=
  match s with EmptyString => false | String _ _ => true end.

(** ** [str.strip] *)

Fixpoint lstrip_chars (l : list ascii) : list ascii :=
  match l with
  | [] => []
  | c :: l' => if is_space c then lstrip_chars l' else l
  end.

Definition rstrip_chars (l : list ascii) : list ascii :=
  rev (lstrip_chars (rev l)).

Definition strip_chars (l : list ascii) : list ascii :=
  rstrip_chars (lstrip_chars l).

Definition strip (s : string) : string := str (strip_chars (chars s)).

(** ** The fragment of [re] that [_STMT_SEP_RE] uses

    A backtracking matcher in continuation-passing style.  [re_match r s n k]
    tries [r] at the head of [s], [n] characters into the match, and hands
    what is left to [k]; a failing continuation makes a greedy star give one
    repetition back. *)

Inductive charset : Type :=
| CLit (c : ascii)          (* one literal character *)
| CSpace.                   (* \s *)

Inductive regex : Type :=
| RChar (cs : charset)
| RStar (cs : charset)      (* cs*, greedy *)
| RSeq (r1 r2 : regex)
| RAlt (r1 r2 : regex)      (* r1|r2, the left branch first *)
| RLookahead (r : regex)    (* (?=r) *)
| REndLine.                 (* $ under re.MULTILINE *)

Definition in_charset (cs : charset) (c : ascii) : bool :=
  match cs with
  | CLit c' => Ascii.eqb c' c
  | CSpace => is_space c
  end.

Fixpoint re_match (r : regex) (s : list ascii) (n : nat)
    (k : list ascii -> nat -> option nat) {struct r} : option nat :=
  match r with
  | RChar cs =>
      match s with
      | c :: s' => if in_charset cs c then k s' (S n) else None
      | [] => None
      end
  | RStar cs =>
      (fix star (s : list ascii) (n : nat) {struct s} : option nat :=
         match s with
         | c :: s' =>
             if in_charset cs c then
               match star s' (S n) with
               | Some e => Some e
               | None => k s n
               end
             else k s n
         | [] => k s n
         end) s n
  | RSeq r1 r2 => re_match r1 s n (fun s' n' => re_match r2 s' n' k)
  | RAlt r1 r2 =>
      match re_match r1 s n k with
      | Some e => Some e
      | None => re_match r2 s n k
      end
  | RLookahead r' =>
      match re_match r' s n (fun _ _ => Some n) with
      | Some _ => k s n
      | None => None
      end
  | REndLine =>
      match s with
      | [] => k s n
      | c :: _ => if Ascii.eqb c newline then k s n else None
      end
  end.

(** Length of the match of [r] that starts at the head of [s], if any. *)
Definition match_length (r : regex) (s : list ascii) : option nat :=
  re_match r s 0 (fun _ n => Some n).

(** [pattern.split(text)].  Start positions are tried from left to right; a
    match closes the current part and the positions it covers are passed
    over ([skip]).  An empty match is not a separator: the pattern below
    cannot produce one. *)
Fixpoint re_split_from (r : regex) (s : list ascii) (skip : nat)
    (cur : list ascii) : list (list ascii) :=
  match s with
  | [] => [cur]
  | c :: s' =>
      match skip with
      | S skip' => re_split_from r s' skip' cur
      | O =>
          match match_length r s with
          | Some (S len) => cur :: re_split_from r s' len []
          | _ => re_split_from r s' 0 (cur ++ [c])
          end
      end
  end.

Definition re_split (r : regex) (text : string) : list string :=
  map str (re_split_from r (chars text) 0 []).

(** [re.compile(r";\s*(?=\n|$)", re.MULTILINE)] *)
Definition _STMT_SEP_RE : regex :=
  RSeq (RChar (CLit semicolon))
       (RSeq (RStar CSpace)
             (RLookahead (RAlt (RChar (CLit newline)) REndLine))).

(** [[p.strip() for p in parts if p.strip()]] *)
Definition _split_statements (query : string) : list string :=
  let parts := re_split _STMT_SEP_RE query in
  map strip (filter (fun p => truthy (strip p) = true) parts).

(** ** Query types *)

(** [_WRITE_TYPES = {"w", "rw", "s"}] *)
Definition _WRITE_TYPES : gset string := {["w"; "rw"; "s"]}.

(** The dictionary literal of [_most_restrictive_type]. *)
Definition precedence : gmap string nat :=
  <["s" := 4]> (<["rw" := 3]> (<["w" := 2]> (<["r" := 1]> (<["" := 0]> ∅)))).

(** [dict.get(key, default)] *)
Definition dict_get {V : Type} (d : gmap string V) (key : string) (default : V) : V :=
  match d !! key with
  | Some v => v
  | None => default
  end.

(** [max(items, key=key, default=default)]: the first item whose key is the
    largest; a later item replaces the best one only when its key is
    strictly greater. *)
Fixpoint max_from {A : Type} (key : A -> nat) (best : A) (items : list A) : A :=
  match items with
  | [] => best
  | x :: items' =>
      if Nat.ltb (key best) (key x) then max_from key x items'
      else max_from key best items'
  end.

Definition py_max {A : Type} (items : list A) (key : A -> nat) (default : A) : A :=
  match items with
  | [] => default
  | x :: items' => max_from key x items'
  end.

Definition _most_restrictive_type (types : list string) : string :=
  py_max types (fun t => dict_get precedence t 0) "".

(** The condition of the write gate,
    [overall_type and overall_type in _WRITE_TYPES and not allow_write]. *)
Definition write_blocked (overall_type : string) (allow_write : bool) : bool :=
  truthy overall_type
  && bool_decide (overall_type ∈ _WRITE_TYPES)
  && negb allow_write.

(** ** Rendered blocks *)

Definition quote : ascii := ascii_of_N 34.
Definition apostrophe : ascii := ascii_of_N 39.

(** [html.escape(s)], with the default [quote=True]. *)
Definition escape_char (c : ascii) : list ascii :=
  if Ascii.eqb c "&" then chars "&amp;"
  else if Ascii.eqb c "<" then chars "&lt;"
  else if Ascii.eqb c ">" then chars "&gt;"
  else if Ascii.eqb c quote then chars "&quot;"
  else if Ascii.eqb c apostrophe then chars "&#x27;"
  else [c].

Definition html_escape (s : string) : string :=
  str (concat (map escape_char (chars s))).

(** The label dictionary of [_render_write_blocked_html]. *)
Definition write_labels : gmap string string :=
  <["w" := "write"]> (<["rw" := "read-write"]> (<["s" := "schema"]> ∅)).

(** What is displayed.  A block is kept as the values that fill the holes of
    its template: the label and the query text of the write-blocked block,
    the exception and the query text of the error block. *)
Inductive Html (E : Type) : Type :=
| NoQueryHtml
| WriteBlockedHtml (label : string) (query_text : string)
| ErrorHtml (exc : E) (query_text : string).
Arguments NoQueryHtml {E}.
Arguments WriteBlockedHtml {E} label query_text.
Arguments ErrorHtml {E} exc query_text.

Definition _render_write_blocked_html {E : Type} (query qtype : string) : Html E :=
  let label := dict_get write_labels qtype "write" in
  WriteBlockedHtml (html_escape label) (html_escape (strip query)).

Definition render_error_html {E : Type} (exc : E) (query : string) : Html E :=
  ErrorHtml exc (html_escape (strip query)).

(** ** The driver and the effects of the gateway *)

Inductive outcome (E A : Type) : Type :=
| Return (a : A)
| Raise (e : E).
Arguments Return {E A} a.
Arguments Raise {E A} e.

(** What the gateway needs of [neo4j.Driver]: [execute_query] answers with
    [(records, summary, keys)] or raises, and moves the database on; [close]
    returns or raises. *)
Class Database : Type := {
  Driver : Type;
  Params : Type;
  Row : Type;
  Summary : Type;
  PyExc : Type;                 (* instances of [Exception] *)
  query_type : Summary -> option string;
  execute_query :
    Driver -> string -> option Params -> string ->
    Driver * outcome PyExc (list Row * Summary * list string);
  close : Driver -> Driver * outcome PyExc unit
}.

(** The parsed flags of the magic line that the gateway reads. *)
Record Args : Type := {
  args_allow_write : bool;      (* --write / -w *)
  no_preflight : bool           (* --no-preflight *)
}.

(** How the [try] block of [_run_cypher] ends: by [return], or by falling
    through to the code after it. *)
Inductive flow (A : Type) : Type :=
| Returned
| Proceed (a : A).
Arguments Returned {A}.
Arguments Proceed {A} a.

Section Gateway.
Context `{DB : Database}.

Definition Response : Type := (list Row * Summary * list string)%type.

Record CypherResult : Type := {
  records : list Row;
  summary : Summary;
  keys : list string
}.

Inductive Event : Type :=
| EvExecuteQuery (query : string) (parameters_ : option Params)
    (database_ : string) (answer : outcome PyExc Response)
| EvClose
| EvDisplay (block : Html PyExc).

Record World : Type := {
  driver : Driver;
  trace : list Event
}.

Definition M (A : Type) : Type := World -> World * outcome PyExc A.

Definition ret {A : Type} (a : A) : M A := fun w => (w, Return a).

Definition bind {A B : Type} (c : M A) (f : A -> M B) : M B :=
  fun w =>
    match c w with
    | (w', Return a) => f a w'
    | (w', Raise e) => (w', Raise e)
    end.

(** [try: body  except Exception as exc: handler(exc)] *)
Definition try_except {A : Type} (body : M A) (handler : PyExc -> M A) : M A :=
  fun w =>
    match body w with
    | (w', Return a) => (w', Return a)
    | (w', Raise e) => handler e w'
    end.

(** [try: body  finally: cleanup] *)
Definition try_finally {A : Type} (body : M A) (cleanup : M unit) : M A :=
  fun w =>
    match body w with
    | (w', r) =>
        match cleanup w' with
        | (w'', Return _) => (w'', r)
        | (w'', Raise e) => (w'', Raise e)
        end
    end.

Definition log (ev : Event) (w : World) : World :=
  {| driver := driver w; trace := trace w ++ [ev] |}.

Definition driver_execute_query (query : string) (parameters_ : option Params)
    (database_ : string) : M Response :=
  fun w =>
    let '(d, answer) := execute_query (driver w) query parameters_ database_ in
    (log (EvExecuteQuery query parameters_ database_ answer)
         {| driver := d; trace := trace w |}, answer).

Definition driver_close : M unit :=
  fun w =>
    let '(d, answer) := close (driver w) in
    (log EvClose {| driver := d; trace := trace w |}, answer).

Definition display_html (block : Html PyExc) : M unit :=
  fun w => (log (EvDisplay block) w, Return tt).

Definition when (b : bool) (c : M unit) : M unit := if b then c else ret tt.

#[global] Instance M_ret : MRet M := @ret.
#[global] Instance M_bind : MBind M := fun A B f c => bind c f.

(** [[f(x) for x in items]] *)
Fixpoint for_list {A B : Type} (f : A -> M B) (items : list A) : M (list B) :=
  match items with
  | [] => ret []
  | x :: items' =>
      y ← f x;
      ys ← for_list f items';
      ret (y :: ys)
  end.

Definition _explain_query_type (query database : string) : M string :=
  try_except
    (r ← driver_execute_query ("EXPLAIN " +:+ query) None database;
     let '(_, summary, _) := r in
     let qt := match query_type summary with
               | Some t => if truthy t then t else ""
               | None => ""
               end in
     ret (lower qt))
    (fun _ => ret "").

(** The [for stmt in statements] loop, [results] growing by [append]. *)
Fixpoint execute_each (statements : list string) (params : Params)
    (database : string) (results : list CypherResult) : M (list CypherResult) :=
  match statements with
  | [] => ret results
  | stmt :: statements' =>
      r ← driver_execute_query stmt (Some params) database;
      let '(records, summary, keys) := r in
      execute_each statements' params database
        (results ++ [{| records := records; summary := summary; keys := keys |}])
  end.

(** [_run_cypher], from the split of the query to the end of the [finally]
    clause, with [query], [params], [database] and [own_driver] as the code
    before has set them.  [Proceed results] hands [results] to the display
    code that follows; [Returned] is a [return] of the source. *)
Definition _run_cypher (args : Args) (query : string) (params : Params)
    (database : string) (own_driver : bool) (allow_write : bool)
    : M (flow (list CypherResult)) :=
  let allow_write := if args_allow_write args then true else allow_write in
  let statements := _split_statements query in
  match statements with
  | [] =>
      display_html NoQueryHtml ;;
      when own_driver driver_close ;;
      ret Returned
  | _ :: _ =>
      try_finally
        (try_except
           (gate ←
              (if negb (no_preflight args) then
                 qtypes ← for_list (fun stmt => _explain_query_type stmt database)
                             statements;
                 let overall_type := _most_restrictive_type qtypes in
                 if write_blocked overall_type allow_write then
                   display_html (_render_write_blocked_html query overall_type) ;;
                   ret Returned
                 else ret (Proceed tt)
               else ret (Proceed tt));
            match gate with
            | Returned => ret Returned
            | Proceed _ =>
                results ← execute_each statements params database [];
                ret (Proceed results)
            end)
           (fun exc =>
              display_html (render_error_html exc query) ;;
              ret Returned))
        (when own_driver driver_close)
  end.

(** The part of [_run_cypher] after the gate: the loop, the [except] clause
    and the [finally] clause. *)
Definition execute_phase (query : string) (statements : list string)
    (params : Params) (database : string) (own_driver : bool)
    : M (flow (list CypherResult)) :=
  try_finally
    (try_except
       (results ← execute_each statements params database [];
        ret (Proceed results))
       (fun exc =>
          display_html (render_error_html exc query) ;;
          ret Returned))
    (when own_driver driver_close).

(** *** Reading a trace *)

Definition fresh (d : Driver) : World := {| driver := d; trace := [] |}.

(** The request of the probe for [stmt], and the request that executes it. *)
Definition explain_event (database stmt : string)
    (answer : outcome PyExc Response) : Event :=
  EvExecuteQuery ("EXPLAIN " +:+ stmt) None database answer.

Definition execute_event (params : Params) (database stmt : string)
    (answer : outcome PyExc Response) : Event :=
  EvExecuteQuery stmt (Some params) database answer.

Definition executed (params : Params) (database stmt : string)
    (response : Response) : Event :=
  execute_event params database stmt (Return response).

Definition closing (own_driver : bool) : list Event :=
  if own_driver then [EvClose] else [].

(** The driver after [if own_driver: driver.close()] on the driver [d], and
    the outcome of a call that ends with it: an exception of [close] leaves
    the call in place of the outcome [r] that the code before has reached. *)
Definition closed (own_driver : bool) (d : Driver) : Driver :=
  if own_driver then fst (close d) else d.

Definition finally_close {A : Type} (own_driver : bool) (d : Driver)
    (r : outcome PyExc A) : outcome PyExc A :=
  if own_driver then
    match snd (close d) with
    | Return _ => r
    | Raise e => Raise e
    end
  else r.

Definition to_result (response : Response) : CypherResult :=
  let '(records, summary, keys) := response in
  {| records := records; summary := summary; keys := keys |}.

(** The query type that the probe draws from the answer to its request. *)
Definition probe_type (answer : outcome PyExc Response) : string :=
  match answer with
  | Return (_, summary, _) =>
      lower (match query_type summary with Some t => t | None => "" end)
  | Raise _ => ""
  end.

(** The probe as the specification words it: '' when the request fails; the
    reported type in lower case when it is one of r, w, rw and s; '' for any
    other reported type and for none. *)
Definition spec_classify (answer : outcome PyExc Response) : string :=
  match answer with
  | Raise _ => ""
  | Return (_, summary, _) =>
      let t := lower (match query_type summary with Some t => t | None => "" end) in
      if bool_decide (t ∈ ["r"; "w"; "rw"; "s"]) then t else ""
  end.

Definition is_explain_request (ev : Event) : bool :=
  match ev with
  | EvExecuteQuery _ None _ _ => true
  | _ => false
  end.

Definition is_execution (ev : Event) : bool :=
  match ev with
  | EvExecuteQuery _ (Some _) _ _ => true
  | _ => false
  end.

Definition is_failed_execution (ev : Event) : bool :=
  match ev with
  | EvExecuteQuery _ (Some _) _ (Raise _) => true
  | _ => false
  end.

Definition is_write_blocked_block (ev : Event) : bool :=
  match ev with
  | EvDisplay (WriteBlockedHtml _ _) => true
  | _ => false
  end.

(** The flag that the gate reads: [--write] on the line, or the magic's own. *)
Definition granted (args : Args) (allow_write : bool) : bool :=
  if args_allow_write args then true else allow_write.

(** The requests of a preflight that lets the batch through: none when
    probing is off, otherwise one EXPLAIN for each statement, with answers
    whose resolved type the gate does not block. *)
Definition admitted_probes (args : Args) (query db : string) (allow : bool)
    (probes : list Event) : Prop :=
  if no_preflight args then probes = []
  else exists answers,
      length answers = length (_split_statements query) /\
      probes = zip_with (explain_event db) (_split_statements query) answers /\
      write_blocked (_most_restrictive_type (map probe_type answers)) allow = false.

(** How a run on a batch that is not empty can go, read off its trace:
    blocked by the gate, stopped by a statement that raises, or done. *)
Inductive run_shape (args : Args) (query : string) (params : Params)
    (db : string) (own allow : bool)
    : list Event -> flow (list CypherResult) -> Prop :=
| shape_blocked answers :
    no_preflight args = false ->
    length answers = length (_split_statements query) ->
    write_blocked (_most_restrictive_type (map probe_type answers)) allow = true ->
    run_shape args query params db own allow
      (zip_with (explain_event db) (_split_statements query) answers
       ++ [EvDisplay (_render_write_blocked_html query
                        (_most_restrictive_type (map probe_type answers)))]
       ++ closing own)
      Returned
| shape_failed probes k stmt exc responses :
    admitted_probes args query db allow probes ->
    _split_statements query !! k = Some stmt ->
    length responses = k ->
    run_shape args query params db own allow
      (probes
       ++ zip_with (executed params db) (take k (_split_statements query)) responses
       ++ [execute_event params db stmt (Raise exc);
           EvDisplay (render_error_html exc query)]
       ++ closing own)
      Returned
| shape_done probes responses :
    admitted_probes args query db allow probes ->
    length responses = length (_split_statements query) ->
    run_shape args query params db own allow
      (probes
       ++ zip_with (executed params db) (_split_statements query) responses
       ++ closing own)
      (Proceed (map to_result responses)).

End Gateway.

(** ** The splitter as the specification words it

    A terminator is a split point when only whitespace separates it from the
    end of its line or from the end of the text; the text is cut at the split
    points, every segment is trimmed and the empty ones are dropped. *)

Fixpoint spec_line_end (rest : list ascii) : bool :=
  match rest with
  | [] => true
  | c :: rest' => Ascii.eqb c newline || (is_space c && spec_line_end rest')
  end.

Fixpoint spec_cut (s cur : list ascii) : list (list ascii) :=
  match s with
  | [] => [cur]
  | c :: s' =>
      if Ascii.eqb c semicolon && spec_line_end s' then cur :: spec_cut s' []
      else spec_cut s' (cur ++ [c])
  end.

Definition spec_split (text : string) : list string :=
  filter (fun p => p <> EmptyString) (map strip (map str (spec_cut (chars text) []))).

(** ** Notions used to state the properties of the splitter *)

(** A list of whitespace characters. *)
Definition blank (l : list ascii) : Prop := Forall (fun c => is_space c = true) l.

Definition line_end_lookahead : regex :=
  RLookahead (RAlt (RChar (CLit newline)) REndLine).

Definition at_line_end (s : list ascii) : bool :=
  match s with
  | [] => true
  | c :: _ => Ascii.eqb c newline
  end.

(** The part of the separator after the terminator: [\s*(?=\n|$)]. *)
Definition tail_match (s : list ascii) (n : nat) : option nat :=
  re_match (RStar CSpace) s n
    (fun s' n' => re_match line_end_lookahead s' n' (fun _ e => Some e)).

Definition tidy (parts : list (list ascii)) : list (list ascii) :=
  filter (fun p => p <> []) (map strip_chars parts).

(** Every terminator of [s] has something other than whitespace after it on
    its line. *)
Fixpoint midline_only (s : list ascii) : bool :=
  match s with
  | [] => true
  | c :: s' => negb (Ascii.eqb c semicolon && spec_line_end s') && midline_only s'
  end.

Definition obrien : string := "MATCH (n) WHERE n.name = 'O;Brien' RETURN n".

(** The rank of a query type in the precedence table, 0 outside it. *)
Definition rank (t : string) : nat := dict_get precedence t 0.

(** ** A scripted database for the examples

    The connection serves a fixed number of requests and is unavailable
    afterwards; an EXPLAIN request is answered from a table. *)
Module Toy.

Definition explain_table (q : string) : option string :=
  if String.eqb q "EXPLAIN CREATE INDEX i" then Some "s"
  else if String.eqb q "EXPLAIN DROP INDEX i" then Some "s"
  else if String.eqb q "EXPLAIN CREATE (n)" then Some "W"
  else if String.eqb q "EXPLAIN CALL x()" then Some "x"
  else if String.eqb q "EXPLAIN SHOW" then None
  else Some "r".

Definition toy_execute_query (left : nat) (q : string) (p : option (list string))
    (db : string) : nat * outcome string (list string * option string * list string) :=
  match left with
  | O => (O, Raise "ServiceUnavailable")
  | S left' =>
      if String.eqb q "EXPLAIN BROKEN" then (left', Raise "CypherSyntaxError")
      else (left', Return ([q], explain_table q, ["n"]))
  end.

#[local] Instance toy : Database := {|
  Driver := nat;
  Params := list string;
  Row := string;
  Summary := option string;
  PyExc := string;
  query_type := fun s => s;
  execute_query := toy_execute_query;
  close := fun d => (d, Return tt)
|}.


Definition world (left : nat) (evs : list Event) : World :=
  {| driver := left; trace := evs |}.

Definition start (left : nat) : World := world left [].

Definition two_lines (a b : string) : string :=
  a +:+ String newline EmptyString +:+ b.

Definition probing : Args := {| args_allow_write := false; no_preflight := false |}.
Definition no_probing : Args := {| args_allow_write := false; no_preflight := true |}.

Definition schema_batch : string := two_lines "CREATE INDEX i;" "DROP INDEX i".
Definition read_batch : string := two_lines "MATCH (m) RETURN m;" "MATCH (p) RETURN p".
Definition ab_batch : string := two_lines "A;" "B".

Definition run (args : Args) (query : string) (allow_write : bool) (left : nat) :=
  _run_cypher args query [] "neo4j" true allow_write (start left).

(** The same database behind a connection whose [close] raises. *)
Definition brittle : Database := {|
  Driver := nat;
  Params := list string;
  Row := string;
  Summary := option string;
  PyExc := string;
  query_type := fun s => s;
  execute_query := toy_execute_query;
  close := fun d => (d, Raise "SessionExpired")
|}.

Definition brittle_run (args : Args) (query : string) (own allow_write : bool)
    (left : nat) :=
  _run_cypher (DB:=brittle) args query [] "neo4j" own allow_write
    (fresh (DB:=brittle) left).

End Toy.

(** ** The two query magics

    [%cypher] and [%wcypher] hand the line to [_run_cypher] with their own
    value of [allow_write]. *)
Section Magics.
Context `{DB : Database}.

Definition cypher (args : Args) (query : string) (params : Params)
    (database : string) (own_driver : bool) : M (flow (list CypherResult)) :=
  _run_cypher args query params database own_driver false.

Definition wcypher (args : Args) (query : string) (params : Params)
    (database : string) (own_driver : bool) : M (flow (list CypherResult)) :=
  _run_cypher args query params database own_driver true.

End Magics.

(** The characters that [html.escape] must not leave in a text. *)
Definition is_markup (c : ascii) : bool :=
  Ascii.eqb c "<" || Ascii.eqb c ">" || Ascii.eqb c quote || Ascii.eqb c apostrophe.

(** ** [_extract_query_from_line] *)

Definition _FLAGS_WITH_VALUES : gset string :=
  {["-u"; "--uri"; "--username"; "-p"; "--password";
    "-d"; "--database"; "-o"; "--output"; "--params"; "-P"]}.

Definition _BOOL_FLAGS : gset string :=
  {["--df"; "--viz"; "--visualize"; "--write"; "-w"; "--no-preflight"]}.

(** The [for tok in tokens] loop, with [skip_next] and [query_tokens]. *)
Fixpoint extract_loop (tokens : list string) (skip_next : bool)
    (query_tokens : list string) : list string :=
  match tokens with
  | [] => query_tokens
  | tok :: tokens' =>
      if skip_next then extract_loop tokens' false query_tokens
      else if bool_decide (tok ∈ _FLAGS_WITH_VALUES) then
        extract_loop tokens' true query_tokens
      else if bool_decide (tok ∈ _BOOL_FLAGS) then
        extract_loop tokens' false query_tokens
      else extract_loop tokens' false (query_tokens ++ [tok])
  end.

(** [sep.join(items)] *)
Definition str_join (sep : string) (items : list string) : string :=
  String.concat sep items.

(** [shlex.split] is the standard library's: it is taken as given, with the
    [ValueError] it raises on an unbalanced quote. *)
Definition _extract_query_from_line {E : Type}
    (shlex_split : string -> outcome E (list string)) (line : string)
    : outcome E string :=
  match shlex_split line with
  | Raise e => Raise e
  | Return tokens => Return (str_join " " (extract_loop tokens false []))
  end.

(** A magic line as its author means it: words of the query, switches, and
    settings with their value. *)
Inductive line_item : Type :=
| Word (w : string)
| Switch (flag : string)
| Setting (flag value : string).

Definition item_tokens (it : line_item) : list string :=
  match it with
  | Word w => [w]
  | Switch f => [f]
  | Setting f v => [f; v]
  end.

Definition item_words (it : line_item) : list string :=
  match it with
  | Word w => [w]
  | _ => []
  end.

Definition well_formed_item (it : line_item) : Prop :=
  match it with
  | Word w => (w ∉ _FLAGS_WITH_VALUES) /\ (w ∉ _BOOL_FLAGS)
  | Switch f => (f ∉ _FLAGS_WITH_VALUES) /\ (f ∈ _BOOL_FLAGS)
  | Setting f _ => f ∈ _FLAGS_WITH_VALUES
  end.

(** ** [connection.py]: the configuration and the session-wide driver *)

(** [a or b] where [a] is a string or [None]. *)
Definition or_str (a : option string) (b : string) : string :=
  match a with
  | Some s => if truthy s then s else b
  | None => b
  end.

Definition or_opt (a b : option string) : option string :=
  match a with
  | Some s => if truthy s then Some s else b
  | None => b
  end.

(** Truthiness of a string or [None]. *)
Definition truthy_opt (a : option string) : bool :=
  match a with
  | Some s => truthy s
  | None => false
  end.

(** What [connection.py] needs of the driver library: [GraphDatabase.driver]
    makes a driver or raises, [verify_connectivity] and [close] return or
    raise, and all three may change the world outside ([Net]).  [LibExc] are
    the exceptions that calls to a library raise. *)
Class Neo4jLib : Type := {
  Handle : Type;
  LibExc : Type;
  Net : Type;
  graph_driver : Net -> string -> string -> string -> Net * outcome LibExc Handle;
  verify_connectivity : Net -> Handle -> Net * outcome LibExc unit;
  close_handle : Net -> Handle -> Net * outcome LibExc unit
}.

Module Connection.

Record ConnectionConfig : Type := {
  uri : string;
  username : string;
  password : string;
  database : string
}.

(** [ConnectionConfig.__init__] *)
Definition new_config (uri username password : string) (database : option string)
    : ConnectionConfig :=
  {| uri := uri; username := username; password := password;
     database := or_str database "neo4j" |}.

(** [ConnectionConfig.from_env]; [env] is [os.environ]. *)
Definition from_env (env : gmap string string) : ConnectionConfig :=
  let uri := dict_get env "NEO4J_URI" "bolt://localhost:7687" in
  let username := or_str (env !! "NEO4J_USERNAME") (dict_get env "NEO4J_USER" "neo4j") in
  let password := dict_get env "NEO4J_PASSWORD" "neo4j" in
  let database := dict_get env "NEO4J_DATABASE" "neo4j" in
  new_config uri username password (Some database).

Section Session.
Context `{Lib : Neo4jLib}.

Inductive LibCall : Type :=
| CallDriver (uri username password : string) (answer : outcome LibExc Handle)
| CallVerify (h : Handle) (answer : outcome LibExc unit)
| CallClose (h : Handle).

(** The class attributes of [Neo4jConnection], the world outside and the
    calls made to the library so far. *)
Record Session : Type := {
  _driver : option Handle;
  _config : option ConnectionConfig;
  net : Net;
  calls : list LibCall
}.

Inductive ConnExc : Type :=
| LibError (e : LibExc)
| AttributeError.

Definition initial (n : Net) : Session :=
  {| _driver := None; _config := None; net := n; calls := [] |}.

(** The configuration that [connect] makes of its arguments. *)
Definition requested_config (env : gmap string string)
    (uri username password database : option string) : ConnectionConfig :=
  match uri with
  | None => from_env env
  | Some u =>
      new_config u
        (or_str username (dict_get env "NEO4J_USERNAME" "neo4j"))
        (or_str password (dict_get env "NEO4J_PASSWORD" "neo4j"))
        (Some (or_str database (dict_get env "NEO4J_DATABASE" "neo4j")))
  end.

(** [if cls._driver is not None: cls._driver.close()], as [connect] has it:
    the attributes are left as they are. *)
Definition close_installed (s : Session) : Session * outcome LibExc unit :=
  match _driver s with
  | Some old =>
      let '(n1, answer) := close_handle (net s) old in
      ({| _driver := _driver s; _config := _config s; net := n1;
          calls := calls s ++ [CallClose old] |}, answer)
  | None => (s, Return tt)
  end.

(** [Neo4jConnection.connect] *)
Definition connect (env : gmap string string)
    (uri username password database : option string) (s : Session)
    : Session * outcome ConnExc unit :=
  let config := requested_config env uri username password database in
  match close_installed s with
  | (s1, Raise e) => (s1, Raise (LibError e))
  | (s1, Return _) =>
      let '(n2, made) :=
        graph_driver (net s1) (Connection.uri config) (Connection.username config)
          (Connection.password config) in
      let log2 :=
        calls s1 ++ [CallDriver (Connection.uri config) (Connection.username config)
                       (Connection.password config) made] in
      match made with
      | Raise e =>
          ({| _driver := _driver s1; _config := _config s1; net := n2; calls := log2 |},
           Raise (LibError e))
      | Return h =>
          let '(n3, verified) := verify_connectivity n2 h in
          let log3 := log2 ++ [CallVerify h verified] in
          match verified with
          | Raise e =>
              ({| _driver := Some h; _config := _config s1; net := n3; calls := log3 |},
               Raise (LibError e))
          | Return _ =>
              ({| _driver := Some h; _config := Some config; net := n3; calls := log3 |},
               Return tt)
          end
      end
  end.

(** [Neo4jConnection.get_driver] *)
Definition get_driver (env : gmap string string) (s : Session)
    : Session * outcome ConnExc (option Handle) :=
  match _driver s with
  | None =>
      match connect env None None None None s with
      | (s', Return _) => (s', Return (_driver s'))
      | (s', Raise e) => (s', Raise e)
      end
  | Some _ => (s, Return (_driver s))
  end.

(** [Neo4jConnection.get_database] *)
Definition get_database (env : gmap string string) (s : Session) : string :=
  match _config s with
  | None => dict_get env "NEO4J_DATABASE" "neo4j"
  | Some cfg => database cfg
  end.

(** [Neo4jConnection.close]: the two attributes are reset once
    [cls._driver.close()] has returned. *)
Definition close (s : Session) : Session * outcome ConnExc unit :=
  match _driver s with
  | Some h =>
      let '(n1, answer) := close_handle (net s) h in
      match answer with
      | Return _ =>
          ({| _driver := None; _config := None; net := n1;
              calls := calls s ++ [CallClose h] |}, Return tt)
      | Raise e =>
          ({| _driver := _driver s; _config := _config s; net := n1;
              calls := calls s ++ [CallClose h] |}, Raise (LibError e))
      end
  | None => (s, Return tt)
  end.

(** [Neo4jConnection.is_connected] *)
Definition is_connected (s : Session) : bool :=
  match _driver s with
  | Some _ => true
  | None => false
  end.

(** The two texts of [status_html], as the values that fill them. *)
Inductive StatusHtml : Type :=
| NotConnectedHtml
| ConnectedHtml (uri username database : string).

(** [Neo4jConnection.status_html]; [cfg.uri] on a [None] configuration is an
    [AttributeError]. *)
Definition status_html (s : Session) : outcome ConnExc StatusHtml :=
  if negb (is_connected s) then Return NotConnectedHtml
  else
    match _config s with
    | None => Raise AttributeError
    | Some cfg => Return (ConnectedHtml (uri cfg) (username cfg) (database cfg))
    end.

(** *** The [%neo4j] magic *)

Record Neo4jArgs : Type := {
  arg_uri : option string;
  arg_username : option string;
  arg_password : option string;
  arg_database : option string;
  arg_env_file : option string;
  arg_close : bool;
  arg_status : bool
}.

Inductive Shown : Type :=
| DisconnectedHtml
| StatusShown (st : StatusHtml)
| DotenvMissingHtml
| FileNotFoundHtml (path : string)
| ConnectedShown (st : StatusHtml)
| ConnectionErrorHtml (exc : ConnExc).

(** The file system and [python-dotenv], as [_load_env_file] sees them:
    [Path.exists] and [dotenv_values] answer or raise (a file that may not be
    read, a directory, bytes that are not text). *)
Record Files : Type := {
  dotenv_installed : bool;
  file_exists : string -> outcome LibExc bool;
  dotenv_values : string -> outcome LibExc (gmap string string)
}.

(** [_load_env_file]: the pairs of the file, or [None] after displaying why;
    an exception of the two calls is not caught. *)
Definition _load_env_file (fs : Files) (path : string)
    : list Shown * outcome LibExc (option (gmap string string)) :=
  if negb (dotenv_installed fs) then ([DotenvMissingHtml], Return None)
  else
    match file_exists fs path with
    | Raise e => ([], Raise e)
    | Return false => ([FileNotFoundHtml path], Return None)
    | Return true =>
        match dotenv_values fs path with
        | Raise e => ([], Raise e)
        | Return pairs => ([], Return (Some pairs))
        end
    end.

(** [Neo4jMagics.neo4j]: the session after the call, what was displayed, and
    the exception that leaves the magic, if any.  Without [--env-file] the
    four [env_*] variables stay [None]: the lookups are made in an empty
    dictionary.  A key that [dotenv_values] maps to [None] reads as a key
    that is not there. *)
Definition neo4j (fs : Files) (env : gmap string string) (args : Neo4jArgs)
    (s : Session) : Session * list Shown * option ConnExc :=
  if arg_close args then
    match close s with
    | (s', Return _) => (s', [DisconnectedHtml], None)
    | (s', Raise e) => (s', [], Some e)
    end
  else if arg_status args then
    match status_html s with
    | Return st => (s, [StatusShown st], None)
    | Raise e => (s, [], Some e)
    end
  else
    let '(shown, loaded) :=
      if truthy_opt (arg_env_file args) then
        _load_env_file fs (default "" (arg_env_file args))
      else ([], Return (Some ∅)) in
    match loaded with
    | Raise e => (s, shown, Some (LibError e))
    | Return None => (s, shown, None)
    | Return (Some loaded) =>
        let env_uri := loaded !! "NEO4J_URI" in
        let env_user := or_opt (loaded !! "NEO4J_USERNAME") (loaded !! "NEO4J_USER") in
        let env_pass := loaded !! "NEO4J_PASSWORD" in
        let env_db := loaded !! "NEO4J_DATABASE" in
        match connect env (or_opt (arg_uri args) env_uri)
                (or_opt (arg_username args) env_user)
                (or_opt (arg_password args) env_pass)
                (or_opt (arg_database args) env_db) s with
        | (s', Return _) =>
            match status_html s' with
            | Return st => (s', shown ++ [ConnectedShown st], None)
            | Raise e => (s', shown ++ [ConnectionErrorHtml e], None)
            end
        | (s', Raise e) => (s', shown ++ [ConnectionErrorHtml e], None)
        end
    end.

(** The sessions that the operations make from a session with no driver. *)
Inductive reachable (fs : Files) (env : gmap string string) : Session -> Prop :=
| reach_initial n : reachable fs env (initial n)
| reach_connect s uri username password database :
    reachable fs env s ->
    reachable fs env (fst (connect env uri username password database s))
| reach_get_driver s :
    reachable fs env s -> reachable fs env (fst (get_driver env s))
| reach_close s :
    reachable fs env s -> reachable fs env (fst (close s))
| reach_neo4j s args :
    reachable fs env s -> reachable fs env (fst (fst (neo4j fs env args s))).

Definition is_close_call (c : LibCall) : bool :=
  match c with
  | CallClose _ => true
  | _ => false
  end.

End Session.

(** A scripted library for the examples: a driver is made for every URI but
    ["bad"], and the server behind ["bolt://down"] does not answer. *)
#[local] Instance toy_lib : Neo4jLib := {|
  Handle := string;
  LibExc := string;
  Net := nat;
  graph_driver := fun n uri _ _ =>
    if String.eqb uri "bad" then (n, Raise "ConfigurationError")
    else (S n, Return uri);
  verify_connectivity := fun n h =>
    if String.eqb h "bolt://down" then (n, Raise "ServiceUnavailable")
    else (n, Return tt);
  close_handle := fun n _ => (n, Return tt)
|}.

(** The same library with drivers whose [close] raises. *)
Definition brittle_lib : Neo4jLib := {|
  Handle := string;
  LibExc := string;
  Net := nat;
  graph_driver := fun n uri _ _ => (S n, Return uri);
  verify_connectivity := fun n h => (n, Return tt);
  close_handle := fun n _ => (n, Raise "SessionExpired")
|}.

Definition toy_files : Files := {|
  dotenv_installed := true;
  file_exists := fun path => Return (String.eqb path ".env");
  dotenv_values := fun _ => Return (<["NEO4J_URI" := "bolt://file:7687"]> ∅)
|}.

(** The same files, with an env file that is not text. *)
Definition binary_files : Files := {|
  dotenv_installed := true;
  file_exists := fun path => Return (String.eqb path ".env");
  dotenv_values := fun _ => Raise "UnicodeDecodeError"
|}.

Definition toy_initial : Session := initial (Lib:=toy_lib) 0.

Definition plain_args : Neo4jArgs := {|
  arg_uri := None; arg_username := None; arg_password := None;
  arg_database := None; arg_env_file := None;
  arg_close := false; arg_status := false
|}.

End Connection.

(** ** The end of [_run_cypher]: what is displayed and stored

    The code after the [finally] clause.  [result.visualize()] and the data
    frame of a result are the library's: [visualize] is taken as given, and
    [DataFrameValue r] stands for [r.df]. *)

(** [--viz], [--df] and [-o VAR]. *)
Record DisplayArgs : Type := {
  arg_visualize : bool;
  arg_as_df : bool;
  arg_output : option string
}.

Inductive VizExc (X : Type) : Type :=
| ImportError (msg : string)
| VizOther (e : X).
Arguments ImportError {X} msg.
Arguments VizOther {X} e.

(** The blocks of the end of [_run_cypher], as the values that fill them. *)
Inductive TailHtml : Type :=
| StoredHtml (var : string) (rows : nat)
| LastStoredHtml (var : string) (rows : nat)
| StatementHeaderHtml (i n : nat) (code : string) (ellipsis : bool).

(** [s.replace('<', '&lt;')] *)
Definition replace_lt (s : string) : string :=
  str (concat (map (fun c => if Ascii.eqb c "<" then chars "&lt;" else [c]) (chars s))).

(** The header of statement [i] of [n]: its first 80 characters, and an
    ellipsis when it has more. *)
Definition statement_header (i n : nat) (stmt : string) : TailHtml :=
  StatementHeaderHtml i n (replace_lt (str (take 80 (chars stmt))))
    (Nat.ltb 80 (length (chars stmt))).

Section Display_tail.
Context `{DB : Database}.
Context {X : Type}.

Inductive Value : Type :=
| ResultValue (r : CypherResult)
| DataFrameValue (r : CypherResult).

Inductive Output : Type :=
| ShowHtml (block : TailHtml)
| ShowBlock (block : Html (VizExc X))
| ShowValue (v : Value).

Inductive TailExc : Type :=
| VizRaised (e : X)
| IndexError
| Escaped (e : PyExc).

(** [result.df if args.as_df else result] *)
Definition output_value (dargs : DisplayArgs) (r : CypherResult) : Value :=
  if arg_as_df dargs then DataFrameValue r else ResultValue r.

(** The loop over [enumerate(zip(statements, results), 1)]. *)
Fixpoint show_each (i n : nat) (pairs : list (string * CypherResult)) : list Output :=
  match pairs with
  | [] => []
  | (stmt, result) :: pairs' =>
      ShowHtml (statement_header i n stmt) :: ShowValue (ResultValue result)
      :: show_each (S i) n pairs'
  end.

(** The namespace after the call, what was displayed, and the exception that
    leaves, if any. *)
Definition display_results (visualize : CypherResult -> outcome (VizExc X) unit)
    (dargs : DisplayArgs) (query : string) (statements : list string)
    (results : list CypherResult) (user_ns : gmap string Value)
    : gmap string Value * list Output * option TailExc :=
  match results with
  | [result] =>
      if arg_visualize dargs then
        match visualize result with
        | Return _ => (user_ns, [], None)
        | Raise (ImportError msg) =>
            (user_ns, [ShowBlock (render_error_html (ImportError msg) query)], None)
        | Raise (VizOther e) => (user_ns, [], Some (VizRaised e))
        end
      else
        let value := output_value dargs result in
        if truthy_opt (arg_output dargs) then
          (<[default "" (arg_output dargs) := value]> user_ns,
           [ShowHtml (StoredHtml (default "" (arg_output dargs)) (length (records result)))],
           None)
        else (user_ns, [ShowValue value], None)
  | _ =>
      let shown := show_each 1 (length results) (zip statements results) in
      match last results with
      | None => (user_ns, shown, Some IndexError)
      | Some last_result =>
          if truthy_opt (arg_output dargs) then
            (<[default "" (arg_output dargs) := output_value dargs last_result]> user_ns,
             shown ++ [ShowHtml (LastStoredHtml (default "" (arg_output dargs))
                                   (length (records last_result)))],
             None)
          else (user_ns, shown, None)
      end
  end.

(** [_run_cypher] as a whole: the gateway, then the display of its results. *)
Definition run_and_display (visualize : CypherResult -> outcome (VizExc X) unit)
    (args : Args) (dargs : DisplayArgs) (query : string) (params : Params)
    (database : string) (own_driver allow_write : bool)
    (user_ns : gmap string Value) (w : World)
    : World * (gmap string Value * list Output * option TailExc) :=
  match _run_cypher args query params database own_driver allow_write w with
  | (w', Return (Proceed results)) =>
      (w', display_results visualize dargs query (_split_statements query) results user_ns)
  | (w', Return Returned) => (w', (user_ns, [], None))
  | (w', Raise e) => (w', (user_ns, [], Some (Escaped e)))
  end.

End Display_tail.

(** ** [result.py]: the graph of a result

    [CypherResult.to_graph], over the values of the driver that it tells
    apart: nodes, relationships, and the rest. *)

(** What [to_graph] needs of Python: the values of properties with their
    truthiness and their [str], and the [hash] of a string. *)
Class PyValues : Type := {
  PropVal : Type;
  truthy_val : PropVal -> bool;
  str_val : PropVal -> string;
  py_hash : string -> Z
}.

Module Graph.
Section Graph.
Context `{Py : PyValues}.

Record NeoNode : Type := {
  element_id : string;
  labels : list string;             (* in the order of iteration *)
  node_props : gmap string PropVal  (* dict(node) *)
}.

Record NeoRel : Type := {
  start_node : NeoNode;
  end_node : NeoNode;
  rel_type : string
}.

Inductive NeoValue : Type :=
| VNode (n : NeoNode)
| VRel (r : NeoRel)
| VPlain.

(** [neo4j_viz.Node] and [neo4j_viz.Relationship] *)
Record VizNode : Type := {
  id : Z;
  caption : string;
  size : Z;
  properties : gmap string string
}.

Record VizRel : Type := {
  source : Z;
  target : Z;
  rel_caption : string
}.

Record VisualizationGraph : Type := {
  nodes : list VizNode;
  relationships : list VizRel
}.

Inductive GraphExc : Type :=
| VizMissing                       (* ImportError *)
| KeyError (key : string).

(** [abs(hash(node.element_id))] *)
Definition _node_num_id (node : NeoNode) : Z := Z.abs (py_hash (element_id node)).

(** [str(props.get("name") or props.get("title") or fallback)] *)
Definition pick_caption (props : gmap string PropVal) (fallback : string) : string :=
  let by_title :=
    match props !! "title" with
    | Some v => if truthy_val v then str_val v else fallback
    | None => fallback
    end in
  match props !! "name" with
  | Some v => if truthy_val v then str_val v else by_title
  | None => by_title
  end.

Definition make_node (nid : Z) (cap : string) (node : NeoNode) : VizNode :=
  {| id := nid; caption := cap; size := 20;
     properties := str_val <$> node_props node |}.

(** [seen_nodes] is a dictionary that keeps the order of insertion. *)
Definition seen_has (nid : Z) (seen : list (Z * VizNode)) : bool :=
  bool_decide (nid ∈ map fst seen).

(** A node that is a value of the result. *)
Definition see_node (node : NeoNode) (seen : list (Z * VizNode)) : list (Z * VizNode) :=
  let nid := _node_num_id node in
  if seen_has nid seen then seen
  else
    let first_label :=
      match labels node with
      | l :: _ => if truthy l then l else element_id node
      | [] => element_id node
      end in
    seen ++ [(nid, make_node nid (pick_caption (node_props node) first_label) node)].

(** A node that is an end of a relationship. *)
Definition see_endpoint (node : NeoNode) (seen : list (Z * VizNode))
    : list (Z * VizNode) :=
  let nid := _node_num_id node in
  if seen_has nid seen then seen
  else
    let first_label :=
      match labels node with
      | l :: _ => l
      | [] => element_id node
      end in
    seen ++ [(nid, make_node nid (pick_caption (node_props node) first_label) node)].

Definition visit (val : NeoValue) (st : list (Z * VizNode) * list VizRel)
    : list (Z * VizNode) * list VizRel :=
  let '(seen, rels) := st in
  match val with
  | VNode n => (see_node n seen, rels)
  | VRel r =>
      let rel := {| source := _node_num_id (start_node r);
                    target := _node_num_id (end_node r);
                    rel_caption := rel_type r |} in
      (see_endpoint (end_node r) (see_endpoint (start_node r) seen), rels ++ [rel])
  | VPlain => st
  end.

(** [for key in self.keys: val = record[key] ...] *)
Fixpoint visit_keys (record : gmap string NeoValue) (keys : list string)
    (st : list (Z * VizNode) * list VizRel)
    : outcome GraphExc (list (Z * VizNode) * list VizRel) :=
  match keys with
  | [] => Return st
  | key :: keys' =>
      match record !! key with
      | None => Raise (KeyError key)
      | Some val => visit_keys record keys' (visit val st)
      end
  end.

(** [for record in self.records: ...] *)
Fixpoint visit_records (records : list (gmap string NeoValue)) (keys : list string)
    (st : list (Z * VizNode) * list VizRel)
    : outcome GraphExc (list (Z * VizNode) * list VizRel) :=
  match records with
  | [] => Return st
  | record :: records' =>
      match visit_keys record keys st with
      | Return st' => visit_records records' keys st'
      | Raise e => Raise e
      end
  end.

(** [CypherResult.to_graph] *)
Definition to_graph (has_neo4j_viz : bool) (keys : list string)
    (records : list (gmap string NeoValue)) : outcome GraphExc VisualizationGraph :=
  if negb has_neo4j_viz then Raise VizMissing
  else
    match visit_records records keys ([], []) with
    | Return (seen, rels) => Return {| nodes := map snd seen; relationships := rels |}
    | Raise e => Raise e
    end.

(** What the loops keep true of [seen_nodes] and [viz_rels]. *)
Definition graph_ok (st : list (Z * VizNode) * list VizRel) : Prop :=
  NoDup (map fst st.1) /\
  (forall nid node, (nid, node) ∈ st.1 -> id node = nid) /\
  (forall rel, rel ∈ st.2 -> source rel ∈ map fst st.1 /\ target rel ∈ map fst st.1).

(** One state of the loops comes after another: nothing seen is lost. *)
Definition grows (st st' : list (Z * VizNode) * list VizRel) : Prop :=
  (forall nid, nid ∈ map fst st.1 -> nid ∈ map fst st'.1) /\
  (forall rel, rel ∈ st.2 -> rel ∈ st'.2).

(** The state holds what [val] brings to the graph. *)
Definition covered (val : NeoValue) (st : list (Z * VizNode) * list VizRel) : Prop :=
  match val with
  | VNode n => _node_num_id n ∈ map fst st.1
  | VRel r =>
      {| source := _node_num_id (start_node r); target := _node_num_id (end_node r);
         rel_caption := rel_type r |} ∈ st.2
  | VPlain => True
  end.

End Graph.

(** Values for the examples: properties are strings, the hash of a string is
    its length. *)
#[local] Instance toy_values : PyValues := {|
  PropVal := string;
  truthy_val := truthy;
  str_val := fun s => s;
  py_hash := fun s => Z.of_nat (String.length s)
|}.

Definition alice : NeoNode :=
  {| element_id := "4:a"; labels := ["Person"];
     node_props := <["name" := "Alice"]> ∅ |}.
Definition matrix : NeoNode :=
  {| element_id := "4:bb"; labels := ["Movie"];
     node_props := <["title" := "The Matrix"]> ∅ |}.
Definition acted_in : NeoRel :=
  {| start_node := alice; end_node := matrix; rel_type := "ACTED_IN" |}.

End Graph.

(** ** [result.py]: the HTML of a result, and plain Python values *)

(** [summary.counters], with the seven fields that [CypherResult.counters]
    reads. *)
Record Counters : Type := {
  nodes_created : Z;
  nodes_deleted : Z;
  relationships_created : Z;
  relationships_deleted : Z;
  properties_set : Z;
  labels_added : Z;
  labels_removed : Z
}.

(** [CypherResult.counters]: the dictionary, in the order of its literal. *)
Definition counters_dict (c : Counters) : list (string * Z) :=
  [("nodes_created", nodes_created c);
   ("nodes_deleted", nodes_deleted c);
   ("relationships_created", relationships_created c);
   ("relationships_deleted", relationships_deleted c);
   ("properties_set", properties_set c);
   ("labels_added", labels_added c);
   ("labels_removed", labels_removed c)].

(** The three texts of [_repr_html_], as the values that fill them; the
    table holds the rows of [df.head(max_rows)]. *)
Inductive ReprHtml (R : Type) : Type :=
| WriteResultHtml (rows : list (string * Z))
| NoResultsHtml
| TableHtml (rows : list R) (count : nat) (plural truncated : bool)
    (available consumed : Z).
Arguments WriteResultHtml {R} rows.
Arguments NoResultsHtml {R}.
Arguments TableHtml {R} rows count plural truncated available consumed.

(** [CypherResult._repr_html_]; [len(df)] is the number of records. *)
Definition _repr_html_ {R : Type} (records : list R) (counters : Counters)
    (result_available_after result_consumed_after : Z) : ReprHtml R :=
  match records with
  | [] =>
      let active := filter (fun kv => kv.2 <> 0%Z) (counters_dict counters) in
      match active with
      | _ :: _ => WriteResultHtml (map (fun kv => (html_escape kv.1, kv.2)) active)
      | [] => NoResultsHtml
      end
  | _ :: _ =>
      let max_rows := 500 in
      let truncated := Nat.ltb max_rows (length records) in
      TableHtml (take max_rows records) (length records)
        (negb (Nat.eqb (length records) 1)) truncated
        result_available_after result_consumed_after
  end.

(** The values of the driver and of Python that [_neo4j_value_to_python]
    tells apart.  A path is given by what iterating over it yields, its
    relationships; a node and a relationship by their properties. *)
#[warnings="-register-all"]
Inductive PyVal (A : Type) : Type :=
| PScalar (a : A)
| PList (items : list (PyVal A))
| PDict (items : list (string * PyVal A))
| PNode (props : list (string * PyVal A))
| PRel (props : list (string * PyVal A))
| PPath (rels : list (PyVal A)).
Arguments PScalar {A} a.
Arguments PList {A} items.
Arguments PDict {A} items.
Arguments PNode {A} props.
Arguments PRel {A} props.
Arguments PPath {A} rels.

Fixpoint _neo4j_value_to_python {A : Type} (value : PyVal A) : PyVal A :=
  match value with
  | PNode props => PDict props
  | PRel props => PDict props
  | PPath rels => PList (map _neo4j_value_to_python rels)
  | PList items => PList (map _neo4j_value_to_python items)
  | PDict items => PDict (map (fun kv => (kv.1, _neo4j_value_to_python kv.2)) items)
  | PScalar a => PScalar a
  end.

(** No node, relationship or path anywhere in the value. *)
Fixpoint plain {A : Type} (value : PyVal A) : bool :=
  match value with
  | PScalar _ => true
  | PList items => forallb plain items
  | PDict items => forallb (fun kv => plain kv.2) items
  | PNode _ | PRel _ | PPath _ => false
  end.

(** The properties of every node and relationship in the value are plain, as
    the database has them. *)
Fixpoint plain_props {A : Type} (value : PyVal A) : bool :=
  match value with
  | PScalar _ => true
  | PList items => forallb plain_props items
  | PDict items => forallb (fun kv => plain_props kv.2) items
  | PNode props | PRel props => forallb (fun kv => plain kv.2) props
  | PPath rels => forallb plain_props rels
  end.

(** * Properties *)

#[local] Arguments Ascii.eqb : simpl never.
#[local] Arguments is_space : simpl never.

(** ** Characters and strings *)

Lemma chars_str l : chars (str l) = l.
Proof. apply list_ascii_of_string_of_list_ascii. Qed.

Lemma str_chars s : str (chars s) = s.
Proof. apply string_of_list_ascii_of_string. Qed.

Lemma str_nil_inv l : str l = EmptyString -> l = [].
Proof. destruct l; [reflexivity | discriminate]. Qed.

Lemma truthy_str l : truthy (str l) = true <-> l <> [].
Proof. destruct l; simpl; split; congruence. Qed.

Lemma space_not_semicolon c : is_space c = true -> Ascii.eqb c semicolon = false.
Proof.
  intros Hc. destruct (Ascii.eqb_spec c semicolon) as [-> | _]; [| reflexivity].
  discriminate Hc.
Qed.

Lemma newline_is_space c : Ascii.eqb c newline = true -> is_space c = true.
Proof. intros Hc. apply Ascii.eqb_eq in Hc. subst c. reflexivity. Qed.

(** ** [strip] *)

Lemma lstrip_blank_app w l : blank w -> lstrip_chars (w ++ l) = lstrip_chars l.
Proof.
  induction 1 as [| c w Hc _ IH]; simpl; [reflexivity |].
  rewrite Hc. exact IH.
Qed.

Lemma lstrip_blank w : blank w -> lstrip_chars w = [].
Proof.
  intros Hw. rewrite <- (app_nil_r w). rewrite lstrip_blank_app by assumption.
  reflexivity.
Qed.

Lemma lstrip_idem l : lstrip_chars (lstrip_chars l) = lstrip_chars l.
Proof.
  induction l as [| c l IH]; simpl; [reflexivity |].
  destruct (is_space c) eqn:Hc; [exact IH |]. simpl. rewrite Hc. reflexivity.
Qed.

Lemma lstrip_snoc l c :
  is_space c = false -> lstrip_chars (l ++ [c]) = lstrip_chars l ++ [c].
Proof.
  intros Hc. induction l as [| a l IH]; simpl.
  - rewrite Hc. reflexivity.
  - destruct (is_space a); [exact IH | reflexivity].
Qed.

Lemma lstrip_head l :
  lstrip_chars l = [] \/
  exists c l', lstrip_chars l = c :: l' /\ is_space c = false.
Proof.
  induction l as [| c l IH]; simpl; [left; reflexivity |].
  destruct (is_space c) eqn:Hc; [exact IH |]. right. eauto.
Qed.

Lemma rstrip_idem l : rstrip_chars (rstrip_chars l) = rstrip_chars l.
Proof. unfold rstrip_chars. rewrite rev_involutive, lstrip_idem. reflexivity. Qed.

Lemma lstrip_rstrip l :
  lstrip_chars (rstrip_chars (lstrip_chars l)) = rstrip_chars (lstrip_chars l).
Proof.
  destruct (lstrip_head l) as [-> | (c & l' & -> & Hc)]; [reflexivity |].
  unfold rstrip_chars. simpl rev. rewrite lstrip_snoc by assumption.
  rewrite rev_app_distr. simpl. rewrite Hc. reflexivity.
Qed.

Lemma strip_chars_idem l : strip_chars (strip_chars l) = strip_chars l.
Proof.
  unfold strip_chars. rewrite lstrip_rstrip. apply rstrip_idem.
Qed.

Lemma strip_chars_blank_app w l : blank w -> strip_chars (w ++ l) = strip_chars l.
Proof. intros Hw. unfold strip_chars. rewrite lstrip_blank_app by assumption. reflexivity. Qed.

Lemma strip_chars_blank w : blank w -> strip_chars w = [].
Proof. intros Hw. unfold strip_chars. rewrite lstrip_blank by assumption. reflexivity. Qed.

Lemma strip_str l : strip (str l) = str (strip_chars l).
Proof. unfold strip. rewrite chars_str. reflexivity. Qed.

Lemma strip_idem s : strip (strip s) = strip s.
Proof. unfold strip. rewrite chars_str, strip_chars_idem. reflexivity. Qed.

(** ** The separator pattern *)

Lemma lookahead_spec s n k :
  re_match line_end_lookahead s n k = if at_line_end s then k s n else None.
Proof.
  destruct s as [| c s]; simpl; [reflexivity |].
  rewrite (Ascii.eqb_sym newline c).
  destruct (Ascii.eqb c newline); reflexivity.
Qed.

Lemma star_cons cs c s n k :
  re_match (RStar cs) (c :: s) n k =
  if in_charset cs c then
    match re_match (RStar cs) s (S n) k with
    | Some e => Some e
    | None => k (c :: s) n
    end
  else k (c :: s) n.
Proof. reflexivity. Qed.

Lemma tail_match_some s : forall n e,
  tail_match s n = Some e ->
  exists j, e = n + j /\ j <= length s /\ blank (take j s) /\ spec_line_end s = true.
Proof.
  unfold tail_match. induction s as [| c s IH]; intros n e H.
  - simpl in H. injection H as <-. exists 0. split_and!; [lia | simpl; lia | constructor | reflexivity].
  - rewrite star_cons in H. simpl in_charset in H.
    destruct (is_space c) eqn:Hc.
    + destruct (re_match (RStar CSpace) s (S n) _) as [e' |] eqn:Hs.
      * injection H as <-. destruct (IH _ _ Hs) as (j & -> & Hj & Hb & He).
        exists (S j). simpl. rewrite Hc, He, orb_true_r.
        split_and!; [lia | lia | constructor; assumption | reflexivity].
      * rewrite lookahead_spec in H. simpl in H.
        destruct (Ascii.eqb c newline) eqn:Hn; [| discriminate].
        injection H as <-. exists 0. simpl. rewrite Hn.
        split_and!; [lia | lia | constructor | reflexivity].
    + rewrite lookahead_spec in H. simpl in H.
      destruct (Ascii.eqb c newline) eqn:Hn; [| discriminate].
      apply newline_is_space in Hn. congruence.
Qed.

Lemma tail_match_none s : forall n,
  tail_match s n = None -> spec_line_end s = false.
Proof.
  unfold tail_match. induction s as [| c s IH]; intros n H.
  - discriminate H.
  - rewrite star_cons in H. simpl in_charset in H. simpl.
    destruct (is_space c) eqn:Hc.
    + destruct (re_match (RStar CSpace) s (S n) _) as [e' |] eqn:Hs; [discriminate |].
      rewrite lookahead_spec in H. simpl in H.
      destruct (Ascii.eqb c newline); [discriminate |].
      rewrite (IH _ Hs). reflexivity.
    + rewrite lookahead_spec in H. simpl in H.
      destruct (Ascii.eqb c newline); [discriminate | reflexivity].
Qed.

Lemma separator_unfold c s :
  match_length _STMT_SEP_RE (c :: s) =
  if Ascii.eqb semicolon c then tail_match s 1 else None.
Proof. reflexivity. Qed.

(** A match of the separator starts at a terminator that ends its line, and
    covers the terminator and whitespace only. *)
Lemma separator_some c s e :
  match_length _STMT_SEP_RE (c :: s) = Some e ->
  exists len, e = S len /\ len <= length s /\ blank (take len s) /\
    Ascii.eqb c semicolon && spec_line_end s = true.
Proof.
  rewrite separator_unfold.
  destruct (Ascii.eqb_spec semicolon c) as [<- | _]; [| discriminate].
  intros H. destruct (tail_match_some _ _ _ H) as (j & -> & Hj & Hb & He).
  exists j. rewrite He. split_and!; [reflexivity | assumption | assumption | reflexivity].
Qed.

Lemma separator_none c s :
  match_length _STMT_SEP_RE (c :: s) = None ->
  Ascii.eqb c semicolon && spec_line_end s = false.
Proof.
  rewrite separator_unfold.
  destruct (Ascii.eqb_spec semicolon c) as [<- | Hne].
  - intros H. rewrite (tail_match_none _ _ H). reflexivity.
  - intros _. destruct (Ascii.eqb_spec c semicolon) as [-> | _]; [congruence | reflexivity].
Qed.

(** ** The split against its specification *)

Lemma tidy_cons p parts :
  tidy (p :: parts) =
  (if decide (strip_chars p <> []) then [strip_chars p] else []) ++ tidy parts.
Proof.
  unfold tidy. simpl. rewrite filter_cons. destruct (decide _); reflexivity.
Qed.

Lemma split_refines s : forall skip cur w,
  blank w -> blank (take skip s) -> skip <= length s ->
  (skip <> 0 -> cur = []) ->
  tidy (re_split_from _STMT_SEP_RE s skip cur) = tidy (spec_cut s (w ++ cur)).
Proof.
  induction s as [| c s IH]; intros skip cur w Hw Hskip Hlen Hcur.
  - simpl. rewrite !tidy_cons, strip_chars_blank_app by assumption. reflexivity.
  - destruct skip as [| skip].
    + simpl re_split_from. simpl spec_cut.
      destruct (match_length _STMT_SEP_RE (c :: s)) as [[| len] |] eqn:Hm.
      * apply separator_some in Hm. destruct Hm as (len & Hlen' & _). discriminate.
      * apply separator_some in Hm.
        destruct Hm as (len' & [= <-] & Hl & Hb & ->).
        rewrite !tidy_cons, strip_chars_blank_app by assumption. f_equal.
        apply (IH len [] []); [constructor | assumption | assumption | reflexivity].
      * rewrite (separator_none _ _ Hm), <- app_assoc.
        apply IH; [assumption | constructor | lia | congruence].
    + simpl re_split_from. simpl spec_cut.
      simpl in Hskip. apply Forall_cons in Hskip as [Hc Hskip].
      rewrite (space_not_semicolon _ Hc). simpl.
      rewrite (Hcur ltac:(discriminate)), app_nil_r.
      simpl in Hlen.
      rewrite <- (app_nil_r (w ++ [c])).
      apply IH; [| assumption | lia | reflexivity].
      apply Forall_app. split; [assumption | constructor; [assumption | constructor]].
Qed.

Lemma source_tidy parts :
  map strip (filter (fun p => truthy (strip p) = true) (map str parts)) =
  map str (tidy parts).
Proof.
  induction parts as [| p parts IH]; [reflexivity |].
  rewrite tidy_cons. simpl map. rewrite filter_cons, strip_str.
  destruct (decide (strip_chars p <> [])) as [Hp | Hp].
  - rewrite decide_True by (apply truthy_str; assumption).
    simpl. rewrite IH, strip_str. reflexivity.
  - rewrite decide_False by (rewrite truthy_str; assumption).
    exact IH.
Qed.

Lemma spec_tidy parts :
  filter (fun p => p <> EmptyString) (map strip (map str parts)) =
  map str (tidy parts).
Proof.
  induction parts as [| p parts IH]; [reflexivity |].
  rewrite tidy_cons. simpl map. rewrite strip_str, filter_cons.
  destruct (decide (strip_chars p <> [])) as [Hp | Hp].
  - rewrite decide_True.
    + simpl. f_equal. exact IH.
    + intros H. apply Hp. apply str_nil_inv. exact H.
  - rewrite decide_False.
    + exact IH.
    + intros H. apply H. apply dec_stable in Hp. rewrite Hp. reflexivity.
Qed.

Lemma split_statements_tidy text :
  _split_statements text = map str (tidy (re_split_from _STMT_SEP_RE (chars text) 0 [])).
Proof. unfold _split_statements, re_split. apply source_tidy. Qed.

Lemma spec_cut_blank w cur : blank w -> spec_cut w cur = [cur ++ w].
Proof.
  intros Hw. revert cur. induction Hw as [| c w Hc _ IH]; intros cur; simpl.
  - rewrite app_nil_r. reflexivity.
  - rewrite (space_not_semicolon _ Hc). simpl. rewrite IH, <- app_assoc. reflexivity.
Qed.

Lemma elem_of_tidy p parts : p ∈ tidy parts -> p <> [] /\ strip_chars p = p.
Proof.
  unfold tidy. intros H. apply list_elem_of_filter in H as [Hne H].
  split; [assumption |].
  apply list_elem_of_fmap in H as (q & -> & _). apply strip_chars_idem.
Qed.

Lemma split_statements_cut text :
  _split_statements text = map str (tidy (spec_cut (chars text) [])).
Proof.
  rewrite split_statements_tidy. f_equal.
  apply (split_refines (chars text) 0 [] []); [constructor | constructor | lia | reflexivity].
Qed.

Lemma spec_cut_midline s : forall cur,
  midline_only s = true -> spec_cut s cur = [cur ++ s].
Proof.
  induction s as [| c s IH]; intros cur Hs; simpl.
  - rewrite app_nil_r. reflexivity.
  - simpl in Hs. apply andb_true_iff in Hs as [Hc Hs].
    apply negb_true_iff in Hc.
    rewrite Hc, IH, <- app_assoc by assumption. reflexivity.
Qed.

(** C3.  The splitter cuts the text exactly at the terminators that end their
    line (only whitespace up to a newline or up to the end of the text); a
    text whose terminators are all in the middle of a line stays one
    statement, as the O;Brien query does; every statement returned is
    trimmed and not empty; a blank text gives no statement. *)
Theorem split_statements_at_line_ends :
  (forall text, _split_statements text = spec_split text) /\
  (forall text, midline_only (chars text) = true ->
     _split_statements text = if truthy (strip text) then [strip text] else []) /\
  _split_statements obrien = [obrien] /\
  (forall text p, p ∈ _split_statements text -> p <> EmptyString /\ strip p = p) /\
  (forall text, blank (chars text) -> _split_statements text = []).
Proof.
  split_and!.
  - intros text. rewrite split_statements_cut. unfold spec_split.
    symmetry. apply spec_tidy.
  - intros text Hmid. rewrite split_statements_cut, spec_cut_midline by assumption.
    simpl app. rewrite tidy_cons. unfold strip.
    destruct (decide (strip_chars (chars text) <> [])) as [Hne | He].
    + destruct (strip_chars (chars text)); [congruence | reflexivity].
    + apply dec_stable in He. rewrite He. reflexivity.
  - vm_compute. reflexivity.
  - intros text p. rewrite split_statements_tidy. intros Hp.
    apply list_elem_of_fmap in Hp as (q & -> & Hq).
    apply elem_of_tidy in Hq as [Hne Hq]. split.
    + intros H. apply Hne. apply str_nil_inv. exact H.
    + rewrite strip_str, Hq. reflexivity.
  - intros text Hb. rewrite split_statements_cut, spec_cut_blank by assumption.
    simpl app. rewrite tidy_cons, strip_chars_blank by assumption. reflexivity.
Qed.

Lemma split_statements_at_line_ends_witness :
  _split_statements (Toy.two_lines "A;  " " B") = ["A"; "B"] /\
  _split_statements "RETURN 'a;b'" = ["RETURN 'a;b'"] /\
  strip "A" = "A" /\
  _split_statements "   " = [].
Proof.
  destruct split_statements_at_line_ends as (Hspec & Hmid & _ & Htrim & Hblank).
  split; [| split; [| split]].
  - rewrite (Hspec (Toy.two_lines "A;  " " B")). vm_compute. reflexivity.
  - rewrite (Hmid "RETURN 'a;b'"); vm_compute; reflexivity.
  - apply (Htrim (Toy.two_lines "A;  " " B") "A"). vm_compute. left.
  - apply (Hblank "   "). vm_compute. repeat constructor.
Defined.

(** The cases of the test suite ([TestSplitStatements]). *)
Example split_statements_examples :
  _split_statements "MATCH (n) RETURN n" = ["MATCH (n) RETURN n"] /\
  _split_statements "MATCH (n) RETURN n;" = ["MATCH (n) RETURN n"] /\
  _split_statements (Toy.two_lines "MATCH (n) RETURN n;" "MATCH (m) RETURN m") =
    ["MATCH (n) RETURN n"; "MATCH (m) RETURN m"] /\
  _split_statements (Toy.two_lines "MATCH (n) RETURN n;   " "MATCH (m) RETURN m") =
    ["MATCH (n) RETURN n"; "MATCH (m) RETURN m"] /\
  _split_statements (Toy.two_lines "A;" (Toy.two_lines ";" "B")) = ["A"; "B"] /\
  _split_statements "" = [] /\
  _split_statements (Toy.two_lines "   " "  ") = [].
Proof. vm_compute. repeat split. Qed.

(** ** The precedence resolver *)

Lemma max_from_spec {A : Type} (key : A -> nat) (items : list A) : forall best,
  let m := max_from key best items in
  key best <= key m /\ (forall x, x ∈ items -> key x <= key m) /\
  (m = best \/ m ∈ items).
Proof.
  induction items as [| x items IH]; intros best; simpl.
  - split_and!; [lia | | left; reflexivity].
    intros x Hx. apply elem_of_nil in Hx. contradiction.
  - destruct (Nat.ltb_spec (key best) (key x)) as [Hlt | Hge].
    + destruct (IH x) as (Hb & Hall & Hin). split_and!.
      * lia.
      * intros y Hy. apply elem_of_cons in Hy as [-> | Hy]; [exact Hb | exact (Hall y Hy)].
      * right. destruct Hin as [-> | Hin]; [left | right; exact Hin].
    + destruct (IH best) as (Hb & Hall & Hin). split_and!.
      * exact Hb.
      * intros y Hy. apply elem_of_cons in Hy as [-> | Hy]; [lia | exact (Hall y Hy)].
      * destruct Hin as [-> | Hin]; [left; reflexivity | right; right; exact Hin].
Qed.

Lemma py_max_spec {A : Type} (key : A -> nat) (default : A) (items : list A) :
  items <> [] ->
  py_max items key default ∈ items /\
  (forall x, x ∈ items -> key x <= key (py_max items key default)).
Proof.
  destruct items as [| x items]; [congruence |]. intros _. simpl.
  destruct (max_from_spec key items x) as (Hb & Hall & Hin). split.
  - destruct Hin as [-> | Hin]; [left | right; exact Hin].
  - intros y Hy. apply elem_of_cons in Hy as [-> | Hy]; [exact Hb | exact (Hall y Hy)].
Qed.

Lemma rank_unlisted t :
  t <> "s" -> t <> "rw" -> t <> "w" -> t <> "r" -> t <> "" -> rank t = 0.
Proof.
  intros. unfold rank, dict_get, precedence.
  rewrite !lookup_insert_ne by congruence. rewrite lookup_empty. reflexivity.
Qed.

(** C4.  The resolver returns a classification of the input whose rank, in
    the order s(4) > rw(3) > w(2) > r(1) > ''(0), no other classification of
    the input exceeds; on the empty sequence it returns ''. *)
Theorem most_restrictive_type_highest_rank :
  (rank "s" = 4 /\ rank "rw" = 3 /\ rank "w" = 2 /\ rank "r" = 1 /\ rank "" = 0) /\
  _most_restrictive_type [] = "" /\
  (forall types, types <> [] ->
     _most_restrictive_type types ∈ types /\
     forall t, t ∈ types -> rank t <= rank (_most_restrictive_type types)) /\
  _most_restrictive_type ["r"; "w"] = "w" /\
  _most_restrictive_type ["w"; "s"] = "s" /\
  _most_restrictive_type ["r"; "rw"; "w"; "s"] = "s".
Proof.
  split_and!; try (vm_compute; reflexivity).
  intros types Hne. unfold _most_restrictive_type.
  apply (py_max_spec (fun t => dict_get precedence t 0) "" types Hne).
Qed.

Lemma most_restrictive_type_highest_rank_witness :
  _most_restrictive_type ["w"; "rw"; "r"] ∈ ["w"; "rw"; "r"] /\
  rank "w" <= rank (_most_restrictive_type ["w"; "rw"; "r"]).
Proof.
  destruct most_restrictive_type_highest_rank as (_ & _ & H & _).
  destruct (H ["w"; "rw"; "r"]) as [Hin Hmax]; [discriminate |].
  split; [exact Hin |]. apply Hmax. left.
Defined.

(** C9.  On a non-empty sequence the resolver returns one of the strings it
    was given.  A string outside the precedence table has rank 0, and is
    returned as it is when nothing before it ranks as high and nothing after
    it ranks higher. *)
Theorem most_restrictive_type_is_an_input :
  (forall types, types <> [] -> _most_restrictive_type types ∈ types) /\
  (forall t, t <> "s" -> t <> "rw" -> t <> "w" -> t <> "r" -> t <> "" ->
     rank t = 0 /\ _most_restrictive_type [t] = t /\
     _most_restrictive_type [t; ""] = t) /\
  _most_restrictive_type ["x"; ""] = "x".
Proof.
  split_and!.
  - intros types Hne. unfold _most_restrictive_type.
    apply (py_max_spec (fun t => dict_get precedence t 0) "" types Hne).
  - intros t Hs Hrw Hw Hr He. pose proof (rank_unlisted t Hs Hrw Hw Hr He) as Ht.
    split_and!; [exact Ht | reflexivity |].
    unfold _most_restrictive_type. simpl. fold (rank t). rewrite Ht. reflexivity.
  - vm_compute. reflexivity.
Qed.

Lemma most_restrictive_type_is_an_input_witness :
  _most_restrictive_type ["x"; "r"] ∈ ["x"; "r"] /\
  rank "read" = 0 /\ _most_restrictive_type ["read"; ""] = "read".
Proof.
  destruct most_restrictive_type_is_an_input as (Hin & Hx & _).
  split.
  - apply (Hin ["x"; "r"]). discriminate.
  - destruct (Hx "read") as (H0 & _ & H2); [discriminate.. |]. split; assumption.
Defined.

(** ** The write gate *)

Lemma elem_of_WRITE_TYPES c :
  c ∈ _WRITE_TYPES <-> c = "w" \/ c = "rw" \/ c = "s".
Proof.
  unfold _WRITE_TYPES. rewrite !elem_of_union, !elem_of_singleton. tauto.
Qed.

Lemma write_blocked_iff c allow_write :
  write_blocked c allow_write = true <->
  (c = "w" \/ c = "rw" \/ c = "s") /\ allow_write = false.
Proof.
  unfold write_blocked.
  rewrite !andb_true_iff, bool_decide_eq_true, negb_true_iff, elem_of_WRITE_TYPES.
  split.
  - intros [[_ Hc] Ha]. split; assumption.
  - intros [Hc Ha]. split_and!; [| assumption | assumption].
    destruct Hc as [-> | [-> | ->]]; reflexivity.
Qed.

(** C1.  The gate rejects exactly when the resolved class is 'w', 'rw' or 's'
    and writing is not allowed; it admits 'r' and '' whatever the flag, and
    every class when writing is allowed. *)
Theorem write_gate_decision (c : string) (allow_write : bool) :
  (write_blocked c allow_write = true <->
     (c = "w" \/ c = "rw" \/ c = "s") /\ allow_write = false) /\
  write_blocked "r" allow_write = false /\
  write_blocked "" allow_write = false /\
  write_blocked c true = false.
Proof.
  split_and!.
  - apply write_blocked_iff.
  - destruct allow_write; reflexivity.
  - destruct allow_write; reflexivity.
  - unfold write_blocked. rewrite andb_false_r. reflexivity.
Qed.

(** ** The probe *)

Lemma lower_char_idem c : lower_char (lower_char c) = lower_char c.
Proof. destruct c as [[] [] [] [] [] [] [] []]; vm_compute; reflexivity. Qed.

Lemma lower_idem s : lower (lower s) = lower s.
Proof.
  unfold lower. rewrite chars_str. f_equal.
  rewrite <- list_fmap_compose. apply list_fmap_ext.
  intros _ c _. apply lower_char_idem.
Qed.

(** Case analysis of a membership in a list built with [::] and [++]. *)
Ltac elem_cases H :=
  repeat first
    [ apply elem_of_nil in H; contradiction
    | apply elem_of_cons in H as [-> | H]
    | apply elem_of_app in H as [H | H] ].

Ltac unfold_M :=
  unfold mbind, M_bind, mret, M_ret, bind, ret, try_except, try_finally,
    display_html, driver_execute_query, driver_close, when, log in *.

Section Run.
Context `{DB : Database}.

Lemma explain_query_type_run stmt db w :
  _explain_query_type stmt db w =
  (let '(d, answer) := execute_query (driver w) ("EXPLAIN " +:+ stmt) None db in
   ({| driver := d; trace := trace w ++ [explain_event db stmt answer] |},
    Return (probe_type answer))).
Proof.
  unfold _explain_query_type. unfold_M.
  destruct (execute_query _ _ _ _) as [d [[[rs s] ks] | e]]; simpl; [| reflexivity].
  destruct (query_type s) as [[| c t] |]; reflexivity.
Qed.

(** The probes of a batch: one EXPLAIN request for each statement, in order,
    and never an exception. *)
Lemma probes_run db stmts : forall w,
  exists d answers,
    for_list (fun stmt => _explain_query_type stmt db) stmts w =
      ({| driver := d;
          trace := trace w ++ zip_with (explain_event db) stmts answers |},
       Return (map probe_type answers)) /\
    length answers = length stmts.
Proof.
  induction stmts as [| stmt stmts IH]; intros w.
  - exists (driver w), []. simpl. unfold_M. rewrite app_nil_r.
    destruct w; split; reflexivity.
  - simpl for_list. unfold mbind, M_bind, bind at 1.
    rewrite explain_query_type_run.
    destruct (execute_query _ _ _ _) as [d1 a1].
    destruct (IH {| driver := d1; trace := trace w ++ [explain_event db stmt a1] |})
      as (d & answers & Hrun & Hlen).
    exists d, (a1 :: answers). unfold mbind, M_bind, bind at 1. rewrite Hrun.
    simpl. unfold_M. rewrite <- app_assoc. simpl. split; [reflexivity | lia].
Qed.

(** The loop: every statement answered, or the statements before position [k]
    answered and the one at [k] raising. *)
Lemma execute_each_run params db stmts : forall results w,
  (exists d responses,
     execute_each stmts params db results w =
       ({| driver := d;
           trace := trace w ++ zip_with (executed params db) stmts responses |},
        Return (results ++ map to_result responses)) /\
     length responses = length stmts) \/
  (exists d k stmt exc responses,
     execute_each stmts params db results w =
       ({| driver := d;
           trace := trace w ++ zip_with (executed params db) (take k stmts) responses
                      ++ [execute_event params db stmt (Raise exc)] |},
        Raise exc) /\
     stmts !! k = Some stmt /\ length responses = k).
Proof.
  induction stmts as [| stmt stmts IH]; intros results w.
  - left. exists (driver w), []. simpl. unfold_M. rewrite !app_nil_r.
    destruct w; split; reflexivity.
  - simpl execute_each. unfold_M.
    destruct (execute_query (driver w) stmt (Some params) db)
      as [d1 [[[rs s] ks] | e]] eqn:Hq.
    + match goal with |- context [execute_each stmts params db ?r ?v] =>
        destruct (IH r v) as [(d & responses & Hrun & Hlen)
                             | (d & k & st & exc & responses & Hrun & Hk & Hlen)];
        rewrite Hrun end.
      * left. exists d, ((rs, s, ks) :: responses). simpl.
        rewrite <- !app_assoc. simpl. split; [reflexivity | lia].
      * right. exists d, (S k), st, exc, ((rs, s, ks) :: responses). simpl.
        rewrite <- !app_assoc. simpl. split_and!; [reflexivity | assumption | lia].
    + right. exists d1, 0, stmt, e, []. simpl. split_and!; reflexivity.
Qed.

(** The [finally] clause: the driver is closed when it is the call's own,
    and an exception of [close] replaces the outcome reached so far. *)
Lemma finally_close_run {A : Type} own (r : outcome PyExc A) d evs :
  match when own driver_close {| driver := d; trace := evs |} with
  | (w', Return _) => (w', r)
  | (w', Raise e) => (w', Raise e)
  end =
  ({| driver := closed own d; trace := evs ++ closing own |}, finally_close own d r).
Proof.
  unfold closed, finally_close. destruct own; unfold_M; simpl.
  - destruct (close d) as [d' [[] | e]]; reflexivity.
  - rewrite app_nil_r. reflexivity.
Qed.

Lemma finally_close_Return {A : Type} own d (r : outcome PyExc A) a :
  finally_close own d r = Return a -> r = Return a.
Proof.
  unfold finally_close. destruct own; [| exact id].
  destruct (snd (close d)); [exact id | discriminate].
Qed.

Lemma finally_close_shared {A : Type} d (r : outcome PyExc A) :
  finally_close false d r = r.
Proof. reflexivity. Qed.

Lemma finally_close_Raise {A : Type} own d (a : A) e :
  finally_close own d (Return a) = Raise e -> own = true /\ snd (close d) = Raise e.
Proof.
  unfold finally_close. destruct own; [| discriminate].
  destruct (snd (close d)); [discriminate |]. intros [= ->]. split; reflexivity.
Qed.

Lemma execute_phase_run query stmts params db own w :
  (exists d responses,
     execute_phase query stmts params db own w =
       ({| driver := closed own d;
           trace := trace w ++ zip_with (executed params db) stmts responses
                      ++ closing own |},
        finally_close own d (Return (Proceed (map to_result responses)))) /\
     length responses = length stmts) \/
  (exists d k stmt exc responses,
     execute_phase query stmts params db own w =
       ({| driver := closed own d;
           trace := trace w ++ zip_with (executed params db) (take k stmts) responses
                      ++ [execute_event params db stmt (Raise exc);
                          EvDisplay (render_error_html exc query)]
                      ++ closing own |},
        finally_close own d (Return Returned)) /\
     stmts !! k = Some stmt /\ length responses = k).
Proof.
  unfold execute_phase, try_finally, try_except.
  destruct (execute_each_run params db stmts [] w)
    as [(d & responses & Hrun & Hlen)
       | (d & k & stmt & exc & responses & Hrun & Hk & Hlen)].
  - left. exists d, responses. split; [| assumption].
    unfold mbind, M_bind, bind at 1. rewrite Hrun. unfold mret, M_ret, ret at 1.
    rewrite finally_close_run, <- app_assoc. reflexivity.
  - right. exists d, k, stmt, exc, responses. split_and!; [| assumption | assumption].
    unfold mbind, M_bind, bind at 1. rewrite Hrun.
    unfold mbind, M_bind, bind, display_html, mret, M_ret, ret, log. cbn [trace driver].
    rewrite finally_close_run, <- !app_assoc. reflexivity.
Qed.

Lemma run_cypher_no_preflight args query params db own allow_write w :
  _split_statements query <> [] -> no_preflight args = true ->
  _run_cypher args query params db own allow_write w =
  execute_phase query (_split_statements query) params db own w.
Proof.
  intros Hne Hno. unfold _run_cypher, execute_phase.
  destruct (_split_statements query) as [| stmt stmts]; [congruence |].
  rewrite Hno. simpl negb. cbv iota. unfold_M. reflexivity.
Qed.

Lemma run_cypher_preflight args query params db own allow_write w w1 qtypes :
  _split_statements query <> [] -> no_preflight args = false ->
  for_list (fun stmt => _explain_query_type stmt db) (_split_statements query) w =
    (w1, Return qtypes) ->
  _run_cypher args query params db own allow_write w =
  if write_blocked (_most_restrictive_type qtypes) (granted args allow_write) then
    ({| driver := closed own (driver w1);
        trace := trace w1
                 ++ [EvDisplay (_render_write_blocked_html query
                                  (_most_restrictive_type qtypes))]
                 ++ closing own |},
     finally_close own (driver w1) (Return Returned))
  else execute_phase query (_split_statements query) params db own w1.
Proof.
  intros Hne Hpre Hprobe. unfold _run_cypher, execute_phase, granted.
  destruct (_split_statements query) as [| stmt stmts]; [congruence |].
  rewrite Hpre. simpl negb. cbv iota.
  unfold try_finally, try_except. unfold mbind, M_bind, bind at 1 2.
  rewrite Hprobe.
  destruct (write_blocked _ _).
  - unfold mbind, M_bind, bind, display_html, mret, M_ret, ret, log. cbn [trace driver].
    rewrite finally_close_run, <- app_assoc. reflexivity.
  - unfold_M. reflexivity.
Qed.

Lemma elem_of_zip_with_all {A B C : Type} (f : A -> B -> C) (P : C -> Prop) l k :
  (forall x y, P (f x y)) -> forall c, c ∈ zip_with f l k -> P c.
Proof.
  intros Hf. revert k. induction l as [| x l IH]; intros [| y k] c Hc; simpl in Hc;
    try (apply elem_of_nil in Hc; contradiction).
  apply elem_of_cons in Hc as [-> | Hc]; [apply Hf | exact (IH k c Hc)].
Qed.

Lemma elem_of_closing own ev : ev ∈ closing own -> ev = EvClose.
Proof.
  destruct own; simpl; intros H.
  - apply list_elem_of_singleton in H. exact H.
  - apply elem_of_nil in H. contradiction.
Qed.

Lemma execute_phase_shape args query params db own allow d probes :
  admitted_probes args query db allow probes ->
  exists d' evs fl,
    execute_phase query (_split_statements query) params db own
      {| driver := d; trace := probes |} =
      ({| driver := closed own d'; trace := evs |}, finally_close own d' (Return fl)) /\
    run_shape args query params db own allow evs fl.
Proof.
  intros Hadm.
  destruct (execute_phase_run query (_split_statements query) params db own
              {| driver := d; trace := probes |})
    as [(d' & responses & Hrun & Hlen)
       | (d' & k & stmt & exc & responses & Hrun & Hk & Hlen)].
  - eexists _, _, _. split; [exact Hrun |]. simpl. constructor; assumption.
  - eexists _, _, _. split; [exact Hrun |]. simpl. constructor; assumption.
Qed.

Lemma run_cypher_shape args query params db own allow_write d :
  _split_statements query <> [] ->
  exists d' evs fl,
    _run_cypher args query params db own allow_write (fresh d) =
      ({| driver := closed own d'; trace := evs |}, finally_close own d' (Return fl)) /\
    run_shape args query params db own (granted args allow_write) evs fl.
Proof.
  intros Hne. destruct (no_preflight args) eqn:Hpre.
  - rewrite run_cypher_no_preflight by assumption.
    apply execute_phase_shape. unfold admitted_probes. rewrite Hpre. reflexivity.
  - destruct (probes_run db (_split_statements query) (fresh d))
      as (d1 & answers & Hprobe & Hlen).
    rewrite (run_cypher_preflight _ _ _ _ _ _ _ _ _ Hne Hpre Hprobe).
    simpl driver. simpl trace.
    destruct (write_blocked _ _) eqn:Hgate.
    + eexists _, _, _. split; [reflexivity |]. constructor; assumption.
    + apply execute_phase_shape. unfold admitted_probes. rewrite Hpre.
      exists answers. split_and!; [assumption | reflexivity | assumption].
Qed.

Lemma run_cypher_empty args query params db own allow_write w :
  _split_statements query = [] ->
  _run_cypher args query params db own allow_write w =
  ({| driver := closed own (driver w);
      trace := trace w ++ [EvDisplay NoQueryHtml] ++ closing own |},
   finally_close own (driver w) (Return Returned)).
Proof.
  intros He. unfold _run_cypher. rewrite He. unfold closed, finally_close. unfold_M.
  destruct own; simpl; rewrite <- ?app_assoc; [| reflexivity].
  destruct (close (driver w)) as [d' [[] | e]]; reflexivity.
Qed.

Lemma probes_are_explain args query db allow probes :
  admitted_probes args query db allow probes ->
  forall ev, ev ∈ probes -> is_explain_request ev = true.
Proof.
  unfold admitted_probes. destruct (no_preflight args).
  - intros -> ev Hev. apply elem_of_nil in Hev. contradiction.
  - intros (answers & _ & -> & _). apply elem_of_zip_with_all. reflexivity.
Qed.

Lemma executed_are_answered params db stmts responses :
  forall ev, ev ∈ zip_with (executed params db) stmts responses ->
  exists stmt response, ev = execute_event params db stmt (Return response).
Proof. apply elem_of_zip_with_all. intros stmt response. eauto. Qed.

(** ** The probe, the gate and the loop in [_run_cypher] *)

(** C2, as amended.  The probe never raises.  It sends one EXPLAIN request;
    when the request raises it returns ''; when the request is answered it
    returns the reported query type in lower case, '' when none is reported.
    A reported type outside r, w, rw and s is returned in lower case too. *)
Theorem explain_query_type_fail_soft stmt db w d answer :
  execute_query (driver w) ("EXPLAIN " +:+ stmt) None db = (d, answer) ->
  exists t,
    _explain_query_type stmt db w =
      ({| driver := d; trace := trace w ++ [explain_event db stmt answer] |},
       Return t) /\
    lower t = t /\
    match answer with
    | Raise _ => t = ""
    | Return (_, summary, _) =>
        match query_type summary with
        | None => t = ""
        | Some reported => t = lower reported
        end
    end.
Proof.
  intros Hq. exists (probe_type answer). rewrite explain_query_type_run, Hq.
  split; [reflexivity |]. destruct answer as [[[rs sm] ks] | e]; simpl.
  - destruct (query_type sm); split; (apply lower_idem || reflexivity).
  - split; reflexivity.
Qed.

(** C5.  When probing is on and the gate rejects the class resolved from the
    probes, the run displays the write-blocked block, which carries the label
    of that class and the whole query text, and returns; its trace holds the
    EXPLAIN requests of the probes and no execution.  The [return] goes
    through the [finally] clause: a driver of the call's own is closed, and
    only an exception of that [close] can take the place of the return. *)
Theorem blocked_batch_executes_nothing args query params db own allow_write d w1 qtypes :
  _split_statements query <> [] ->
  no_preflight args = false ->
  for_list (fun stmt => _explain_query_type stmt db) (_split_statements query) (fresh d) =
    (w1, Return qtypes) ->
  write_blocked (_most_restrictive_type qtypes) (granted args allow_write) = true ->
  exists label answers,
    _run_cypher args query params db own allow_write (fresh d) =
      ({| driver := closed own (driver w1);
          trace := zip_with (explain_event db) (_split_statements query) answers
                   ++ [EvDisplay (WriteBlockedHtml label (html_escape (strip query)))]
                   ++ closing own |},
       finally_close own (driver w1) (Return Returned)) /\
    length answers = length (_split_statements query) /\
    (_most_restrictive_type qtypes = "w" /\ label = "write" \/
     _most_restrictive_type qtypes = "rw" /\ label = "read-write" \/
     _most_restrictive_type qtypes = "s" /\ label = "schema") /\
    forall ev,
      ev ∈ zip_with (explain_event db) (_split_statements query) answers
           ++ [EvDisplay (WriteBlockedHtml label (html_escape (strip query)))]
           ++ closing own ->
      is_execution ev = false.
Proof.
  intros Hne Hpre Hprobe Hgate.
  destruct (probes_run db (_split_statements query) (fresh d))
    as (d1 & answers & Hrun & Hlen).
  rewrite Hprobe in Hrun. injection Hrun as -> ->.
  rewrite (run_cypher_preflight _ _ _ _ _ _ _ _ _ Hne Hpre Hprobe), Hgate.
  simpl driver. simpl trace.
  set (c := _most_restrictive_type (map probe_type answers)) in *.
  assert (Hlabel : exists label,
             _render_write_blocked_html (E:=PyExc) query c =
               WriteBlockedHtml label (html_escape (strip query)) /\
             (c = "w" /\ label = "write" \/ c = "rw" /\ label = "read-write" \/
              c = "s" /\ label = "schema")).
  { apply write_blocked_iff in Hgate as [[Hc | [Hc | Hc]] _]; rewrite Hc.
    - exists "write". split; [reflexivity | tauto].
    - exists "read-write". split; [reflexivity | tauto].
    - exists "schema". split; [reflexivity | tauto]. }
  destruct Hlabel as (label & -> & Hc).
  exists label, answers. split_and!; [reflexivity | assumption | assumption |].
  intros ev Hev. rewrite !elem_of_app in Hev. destruct Hev as [Hev | [Hev | Hev]].
  - revert ev Hev. apply elem_of_zip_with_all. reflexivity.
  - apply list_elem_of_singleton in Hev. subst ev. reflexivity.
  - apply elem_of_closing in Hev. subst ev. reflexivity.
Qed.

(** C6, as amended.  When the execution of a statement raises, that
    statement is the last one sent: the statements before it were executed in
    order, none after it is, the results gathered so far are dropped, and the
    error block displayed carries the exception and the whole query text.
    The block carries neither the position nor the text of the statement.
    The call returns without results, unless the [close] of its own driver
    in the [finally] clause raises: then that exception leaves the call. *)
Theorem failed_execution_aborts_batch args query params db own allow_write d w' r stmt exc :
  _run_cypher args query params db own allow_write (fresh d) = (w', r) ->
  execute_event params db stmt (Raise exc) ∈ trace w' ->
  exists probes k responses d0,
    _split_statements query !! k = Some stmt /\
    length responses = k /\
    (forall ev, ev ∈ probes -> is_explain_request ev = true) /\
    trace w' =
      probes
      ++ zip_with (executed params db) (take k (_split_statements query)) responses
      ++ [execute_event params db stmt (Raise exc);
          EvDisplay (ErrorHtml exc (html_escape (strip query)))]
      ++ closing own /\
    driver w' = closed own d0 /\
    r = finally_close own d0 (Return Returned).
Proof.
  intros Hrun Hin.
  destruct (decide (_split_statements query = [])) as [He | Hne].
  - rewrite (run_cypher_empty _ _ _ _ _ _ _ He) in Hrun. injection Hrun as <- <-.
    simpl in Hin. apply elem_of_cons in Hin as [Hin | Hin]; [discriminate |].
    apply elem_of_closing in Hin. discriminate.
  - destruct (run_cypher_shape args query params db own allow_write d Hne)
      as (d' & evs & fl & Hrun' & Hshape).
    rewrite Hrun in Hrun'. injection Hrun' as -> ->. simpl in Hin.
    destruct Hshape as [answers Hpre Hlen Hgate
                       | probes k stmt' exc' responses Hadm Hk Hlen
                       | probes responses Hadm Hlen].
    + exfalso. rewrite !elem_of_app in Hin. destruct Hin as [Hin | [Hin | Hin]].
      * apply (elem_of_zip_with_all _ (fun ev => is_explain_request ev = true)) in Hin;
          [discriminate | reflexivity].
      * apply list_elem_of_singleton in Hin. discriminate.
      * apply elem_of_closing in Hin. discriminate.
    + assert (Hsame : stmt' = stmt /\ exc' = exc).
      { rewrite !elem_of_app in Hin. destruct Hin as [Hin | [Hin | [Hin | Hin]]].
        - apply (probes_are_explain _ _ _ _ _ Hadm) in Hin. discriminate.
        - apply executed_are_answered in Hin as (? & ? & Hin). discriminate.
        - apply elem_of_cons in Hin as [Hin | Hin].
          + injection Hin as -> ->. split; reflexivity.
          + apply list_elem_of_singleton in Hin. discriminate.
        - apply elem_of_closing in Hin. discriminate. }
      destruct Hsame as [-> ->].
      exists probes, k, responses, d'.
      split_and!; [assumption | assumption | | reflexivity | reflexivity | reflexivity].
      apply (probes_are_explain _ _ _ _ _ Hadm).
    + exfalso. rewrite !elem_of_app in Hin. destruct Hin as [Hin | [Hin | Hin]].
      * apply (probes_are_explain _ _ _ _ _ Hadm) in Hin. discriminate.
      * apply executed_are_answered in Hin as (? & ? & Hin). discriminate.
      * apply elem_of_closing in Hin. discriminate.
Qed.

(** C7.  Every run on a batch that is not empty consumes the statements in
    the order of the split.  With probing on, each statement is probed by one
    EXPLAIN request, in that order, before anything is executed; with probing
    off no request of the kind is sent.  When the gate blocks, nothing is
    executed.  When it admits, the statements are executed from the first
    on, in that order, each with the same parameters, until one raises or all
    are done: every statement before the one that raises was executed and
    none after it, and when none raises every statement was executed and the
    results handed on are the answers, one for each statement, in that
    order.  Nothing else is asked of the driver but the final [close] of a
    driver of the call's own. *)
Theorem statements_run_in_split_order args query params db own allow_write d :
  _split_statements query <> [] ->
  exists w' r d0 answers,
    _run_cypher args query params db own allow_write (fresh d) = (w', r) /\
    driver w' = closed own d0 /\
    length answers =
      (if no_preflight args then 0 else length (_split_statements query)) /\
    if negb (no_preflight args) &&
       write_blocked (_most_restrictive_type (map probe_type answers))
         (granted args allow_write)
    then
      trace w' =
        zip_with (explain_event db) (_split_statements query) answers
        ++ [EvDisplay (_render_write_blocked_html query
                         (_most_restrictive_type (map probe_type answers)))]
        ++ closing own /\
      r = finally_close own d0 (Return Returned)
    else
      exists responses,
        (length responses = length (_split_statements query) /\
         trace w' =
           zip_with (explain_event db) (_split_statements query) answers
           ++ zip_with (executed params db) (_split_statements query) responses
           ++ closing own /\
         r = finally_close own d0 (Return (Proceed (map to_result responses))) /\
         length (map to_result responses) = length (_split_statements query)) \/
        (exists k stmt exc,
           _split_statements query !! k = Some stmt /\
           length responses = k /\
           trace w' =
             zip_with (explain_event db) (_split_statements query) answers
             ++ zip_with (executed params db) (take k (_split_statements query))
                  responses
             ++ [execute_event params db stmt (Raise exc);
                 EvDisplay (render_error_html exc query)]
             ++ closing own /\
           r = finally_close own d0 (Return Returned)).
Proof.
  intros Hne.
  destruct (run_cypher_shape args query params db own allow_write d Hne)
    as (d' & evs & fl & Hrun & Hshape).
  assert (Hprobes : forall probes,
             admitted_probes args query db (granted args allow_write) probes ->
             exists answers,
               length answers =
                 (if no_preflight args then 0 else length (_split_statements query)) /\
               probes = zip_with (explain_event db) (_split_statements query) answers /\
               negb (no_preflight args) &&
                 write_blocked (_most_restrictive_type (map probe_type answers))
                   (granted args allow_write) = false).
  { unfold admitted_probes. intros probes. destruct (no_preflight args).
    - intros ->. exists []. rewrite zip_with_nil_r.
      split_and!; reflexivity.
    - intros (answers & Hlen & -> & Hgate). exists answers.
      split_and!; [assumption | reflexivity | exact Hgate]. }
  exists {| driver := closed own d'; trace := evs |}, (finally_close own d' (Return fl)), d'.
  destruct Hshape as [answers Hpre Hlen Hgate
                     | probes k stmt exc responses Hadm Hk Hlen
                     | probes responses Hadm Hlen].
  - exists answers. rewrite Hpre, Hgate. simpl negb. cbv iota. simpl andb. cbv iota.
    split_and!; [exact Hrun | reflexivity | exact Hlen | reflexivity | reflexivity].
  - destruct (Hprobes _ Hadm) as (answers & Hlen' & -> & Hadmit).
    exists answers. rewrite Hadmit.
    split_and!; [exact Hrun | reflexivity | exact Hlen' |].
    exists responses. right. exists k, stmt, exc.
    split_and!; [assumption | assumption | reflexivity | reflexivity].
  - destruct (Hprobes _ Hadm) as (answers & Hlen' & -> & Hadmit).
    exists answers. rewrite Hadmit.
    split_and!; [exact Hrun | reflexivity | exact Hlen' |].
    exists responses. left.
    split_and!; [assumption | reflexivity | reflexivity |].
    rewrite length_map. assumption.
Qed.

(** C8.  With probing off, a run on a batch that is not empty sends no
    EXPLAIN request and displays no write-blocked block; it starts by
    executing the first statement, and it goes the same way whatever the
    write flag is.  Its outcome is a return, unless the [close] of its own
    driver in the [finally] clause raises. *)
Theorem no_preflight_always_admits args query params db own allow_write d :
  _split_statements query <> [] ->
  no_preflight args = true ->
  exists w' d0 fl stmt answer rest,
    _run_cypher args query params db own allow_write (fresh d) =
      (w', finally_close own d0 (Return fl)) /\
    (forall allow_write',
       _run_cypher args query params db own allow_write' (fresh d) =
         (w', finally_close own d0 (Return fl))) /\
    driver w' = closed own d0 /\
    (forall ev, ev ∈ trace w' ->
       is_explain_request ev = false /\ is_write_blocked_block ev = false) /\
    head (_split_statements query) = Some stmt /\
    trace w' = execute_event params db stmt answer :: rest.
Proof.
  intros Hne Hno.
  assert (Hany : forall aw aw',
             _run_cypher args query params db own aw (fresh d) =
             _run_cypher args query params db own aw' (fresh d)).
  { intros aw aw'. rewrite !run_cypher_no_preflight by assumption. reflexivity. }
  destruct (run_cypher_shape args query params db own allow_write d Hne)
    as (d' & evs & fl & Hrun & Hshape).
  assert (Hclosing : forall ev, ev ∈ closing own ->
             is_explain_request ev = false /\ is_write_blocked_block ev = false).
  { intros ev Hev. apply elem_of_closing in Hev. subst ev. split; reflexivity. }
  assert (Hexec : forall stmts responses ev,
             ev ∈ zip_with (executed params db) stmts responses ->
             is_explain_request ev = false /\ is_write_blocked_block ev = false).
  { intros stmts responses. apply elem_of_zip_with_all. intros; split; reflexivity. }
  destruct (_split_statements query) as [| stmt stmts] eqn:Hsplit; [congruence |].
  exists {| driver := closed own d'; trace := evs |}, d', fl, stmt.
  destruct Hshape as [answers Hpre Hlen Hgate
                     | probes k stmt' exc responses Hadm Hk Hlen
                     | probes responses Hadm Hlen];
    rewrite ?Hsplit in *.
  - congruence.
  - unfold admitted_probes in Hadm. rewrite Hno in Hadm. subst probes.
    destruct k as [| k].
    + apply nil_length_inv in Hlen. subst responses. injection Hk as <-.
      eexists _, _. split_and!; [exact Hrun | | reflexivity | | reflexivity | reflexivity].
      * intros aw'. rewrite (Hany aw' allow_write). exact Hrun.
      * simpl. intros ev Hev. elem_cases Hev;
          first [split; reflexivity | apply Hclosing; assumption].
    + destruct responses as [| response responses]; [discriminate Hlen |].
      eexists _, _. split_and!; [exact Hrun | | reflexivity | | reflexivity | reflexivity].
      * intros aw'. rewrite (Hany aw' allow_write). exact Hrun.
      * simpl trace. intros ev Hev. elem_cases Hev;
          first [split; reflexivity | apply Hclosing; assumption
                | eapply Hexec; eassumption].
  - unfold admitted_probes in Hadm. rewrite Hno in Hadm. subst probes.
    destruct responses as [| response responses]; [discriminate Hlen |].
    eexists _, _. split_and!; [exact Hrun | | reflexivity | | reflexivity | reflexivity].
    + intros aw'. rewrite (Hany aw' allow_write). exact Hrun.
    + simpl trace. intros ev Hev. elem_cases Hev;
        first [split; reflexivity | apply Hclosing; assumption
              | eapply Hexec; eassumption].
Qed.

(** C10.  The gate blocks only on the strings 'w', 'rw' and 's'.  When the
    class resolved from the probes is any other string, the run goes on to
    the execution of the statements whatever the write flag is. *)
Theorem gate_admits_unlisted_types :
  (forall c allow_write,
     write_blocked c allow_write = true -> c = "w" \/ c = "rw" \/ c = "s") /\
  (forall c allow_write,
     c <> "w" -> c <> "rw" -> c <> "s" -> write_blocked c allow_write = false) /\
  (forall args query params db own allow_write d w1 qtypes,
     _split_statements query <> [] ->
     no_preflight args = false ->
     for_list (fun stmt => _explain_query_type stmt db) (_split_statements query)
       (fresh d) = (w1, Return qtypes) ->
     _most_restrictive_type qtypes <> "w" ->
     _most_restrictive_type qtypes <> "rw" ->
     _most_restrictive_type qtypes <> "s" ->
     _run_cypher args query params db own allow_write (fresh d) =
     execute_phase query (_split_statements query) params db own w1).
Proof.
  assert (Hadmit : forall c allow_write,
             c <> "w" -> c <> "rw" -> c <> "s" -> write_blocked c allow_write = false).
  { intros c aw Hw Hrw Hs. apply not_true_is_false. intros Hb.
    apply write_blocked_iff in Hb as [[? | [? | ?]] _]; contradiction. }
  split_and!.
  - intros c aw Hb. apply write_blocked_iff in Hb as [Hc _]. exact Hc.
  - exact Hadmit.
  - intros args query params db own aw d w1 qtypes Hne Hpre Hprobe Hw Hrw Hs.
    rewrite (run_cypher_preflight _ _ _ _ _ _ _ _ _ Hne Hpre Hprobe).
    rewrite Hadmit by assumption. reflexivity.
Qed.

End Run.

(** ** Runs against the scripted database *)

Lemma explain_query_type_fail_soft_witness :
  snd (_explain_query_type (DB:=Toy.toy) "CREATE (n)" "neo4j" (Toy.start 1)) = Return "w".
Proof.
  destruct (explain_query_type_fail_soft (DB:=Toy.toy) "CREATE (n)" "neo4j"
              (Toy.start 1) 0 (Return (["EXPLAIN CREATE (n)"], Some "W", ["n"]))
              eq_refl) as (t & Hrun & _ & Ht).
  rewrite Hrun. simpl in Ht. rewrite Ht. reflexivity.
Defined.

(** C2, as the specification states it, fails: a reported type outside r, w,
    rw and s is not turned into ''.  The scripted database reports 'x' for
    CALL x(), and the probe returns 'x'. *)
Lemma explain_query_type_keeps_unlisted_type :
  ~ (forall (DB : Database) stmt db w,
       snd (_explain_query_type stmt db w) =
       Return (spec_classify
                 (snd (execute_query (driver w) ("EXPLAIN " +:+ stmt) None db)))).
Proof.
  intros H. specialize (H Toy.toy "CALL x()" "neo4j" (Toy.start 1)).
  vm_compute in H. discriminate H.
Qed.

Lemma blocked_batch_executes_nothing_witness :
  snd (Toy.run Toy.probing Toy.schema_batch false 10) = Return Returned.
Proof.
  destruct (blocked_batch_executes_nothing (DB:=Toy.toy) Toy.probing Toy.schema_batch
              [] "neo4j" true false 10
              (fst (for_list (fun stmt => _explain_query_type stmt "neo4j")
                      (_split_statements Toy.schema_batch) (Toy.start 10)))
              ["s"; "s"])
    as (label & answers & Hrun & _).
  - vm_compute. discriminate.
  - reflexivity.
  - vm_compute. reflexivity.
  - vm_compute. reflexivity.
  - unfold Toy.run, Toy.start, Toy.world. unfold fresh in Hrun. rewrite Hrun. reflexivity.
Defined.

Lemma failed_execution_aborts_batch_witness :
  exists k,
    _split_statements Toy.ab_batch !! k = Some "B" /\
    snd (Toy.run Toy.no_probing Toy.ab_batch false 1) = Return Returned.
Proof.
  destruct (failed_execution_aborts_batch (DB:=Toy.toy) Toy.no_probing Toy.ab_batch
              [] "neo4j" true false 1
              (fst (Toy.run Toy.no_probing Toy.ab_batch false 1))
              (snd (Toy.run Toy.no_probing Toy.ab_batch false 1))
              "B" "ServiceUnavailable")
    as (probes & k & responses & d0 & Hk & _ & _ & _ & _ & Hr).
  - vm_compute. reflexivity.
  - vm_compute. apply list_elem_of_further, list_elem_of_here.
  - exists k. split; [assumption | rewrite Hr; reflexivity].
Defined.

(** C6, as the specification states it, fails: the error block does not tell
    which statement failed.  The scripted database fails the first statement
    of a batch in one run and the second in another, and both runs display
    the same block. *)
Lemma error_block_does_not_locate_statement :
  ~ exists locate : Html string -> nat * string,
      forall (left k : nat) (stmt exc : string) pre block post,
        trace (fst (Toy.run Toy.no_probing Toy.ab_batch false left)) =
          pre ++ execute_event (DB:=Toy.toy) [] "neo4j" stmt (Raise exc)
              :: EvDisplay block :: post ->
        _split_statements Toy.ab_batch !! k = Some stmt ->
        length pre = k ->
        locate block = (k, stmt).
Proof.
  intros (locate & H).
  pose proof (H 0 0 "A" "ServiceUnavailable" []
                (render_error_html "ServiceUnavailable" Toy.ab_batch) [EvClose]
                eq_refl eq_refl eq_refl) as H0.
  pose proof (H 1 1 "B" "ServiceUnavailable"
                [executed (DB:=Toy.toy) [] "neo4j" "A" (["A"], Some "r", ["n"])]
                (render_error_html "ServiceUnavailable" Toy.ab_batch) [EvClose]
                eq_refl eq_refl eq_refl) as H1.
  rewrite H0 in H1. discriminate H1.
Qed.

Lemma statements_run_in_split_order_witness :
  exists results,
    snd (Toy.run Toy.probing Toy.read_batch false 10) = Return (Proceed results) /\
    length results = 2.
Proof.
  destruct (statements_run_in_split_order (DB:=Toy.toy) Toy.probing Toy.read_batch
              [] "neo4j" true false 10)
    as (w' & r & d0 & answers & Hrun & _).
  - vm_compute. discriminate.
  - unfold Toy.run, Toy.start, Toy.world. unfold fresh in Hrun. rewrite Hrun. simpl snd.
    vm_compute in Hrun. injection Hrun as _ <-.
    eexists. split; reflexivity.
Defined.

Lemma no_preflight_always_admits_witness :
  Toy.run Toy.no_probing "CREATE (n)" true 10 =
  Toy.run Toy.no_probing "CREATE (n)" false 10.
Proof.
  destruct (no_preflight_always_admits (DB:=Toy.toy) Toy.no_probing "CREATE (n)"
              [] "neo4j" true false 10)
    as (w' & d0 & fl & stmt & answer & rest & _ & Hany & _).
  - vm_compute. discriminate.
  - reflexivity.
  - unfold Toy.run, Toy.start, Toy.world. unfold fresh in Hany.
    rewrite (Hany true), (Hany false). reflexivity.
Defined.

Lemma gate_admits_unlisted_types_witness :
  write_blocked "x" false = false /\
  Toy.run Toy.probing "CALL x()" false 10 =
  execute_phase (DB:=Toy.toy) "CALL x()" (_split_statements "CALL x()") [] "neo4j" true
    (fst (for_list (fun stmt => _explain_query_type stmt "neo4j")
            (_split_statements "CALL x()") (Toy.start 10))).
Proof.
  destruct (gate_admits_unlisted_types (DB:=Toy.toy)) as (_ & Hgate & Hrun).
  split.
  - apply Hgate; discriminate.
  - apply (Hrun Toy.probing "CALL x()" [] "neo4j" true false 10 _ ["x"]).
    + vm_compute. discriminate.
    + reflexivity.
    + vm_compute. reflexivity.
    + vm_compute. discriminate.
    + vm_compute. discriminate.
    + vm_compute. discriminate.
Defined.

(** Scenario A of the specification: two schema statements without the write
    flag.  Both are probed, the batch is blocked, nothing is executed. *)
Example schema_batch_is_blocked :
  Toy.run Toy.probing Toy.schema_batch false 10 =
  (Toy.world 8
        [explain_event (DB:=Toy.toy) "neo4j" "CREATE INDEX i"
           (Return (["EXPLAIN CREATE INDEX i"], Some "s", ["n"]));
         explain_event (DB:=Toy.toy) "neo4j" "DROP INDEX i"
           (Return (["EXPLAIN DROP INDEX i"], Some "s", ["n"]));
         EvDisplay (WriteBlockedHtml "schema" Toy.schema_batch);
         EvClose],
   Return Returned).
Proof. vm_compute. reflexivity. Qed.

(** Scenario B of the specification: two read statements without the write
    flag.  Both are probed, then both are executed, in order. *)
Example read_batch_is_executed :
  Toy.run Toy.probing Toy.read_batch false 10 =
  (Toy.world 6
        [explain_event (DB:=Toy.toy) "neo4j" "MATCH (m) RETURN m"
           (Return (["EXPLAIN MATCH (m) RETURN m"], Some "r", ["n"]));
         explain_event (DB:=Toy.toy) "neo4j" "MATCH (p) RETURN p"
           (Return (["EXPLAIN MATCH (p) RETURN p"], Some "r", ["n"]));
         executed (DB:=Toy.toy) [] "neo4j" "MATCH (m) RETURN m"
           (["MATCH (m) RETURN m"], Some "r", ["n"]);
         executed (DB:=Toy.toy) [] "neo4j" "MATCH (p) RETURN p"
           (["MATCH (p) RETURN p"], Some "r", ["n"]);
         EvClose],
   Return (Proceed
     [to_result (DB:=Toy.toy) (["MATCH (m) RETURN m"], Some "r", ["n"]);
      to_result (DB:=Toy.toy) (["MATCH (p) RETURN p"], Some "r", ["n"])])).
Proof. vm_compute. reflexivity. Qed.

(** * Further properties of the gateway *)

(** ** The gate over a whole batch *)

Lemma rank_cases t :
  t = "s" /\ rank t = 4 \/ t = "rw" /\ rank t = 3 \/ t = "w" /\ rank t = 2 \/
  t = "r" /\ rank t = 1 \/ rank t = 0.
Proof.
  destruct (decide (t = "s")) as [-> | Hs]; [left; split; reflexivity |].
  destruct (decide (t = "rw")) as [-> | Hrw]; [right; left; split; reflexivity |].
  destruct (decide (t = "w")) as [-> | Hw]; [right; right; left; split; reflexivity |].
  destruct (decide (t = "r")) as [-> | Hr];
    [right; right; right; left; split; reflexivity |].
  right; right; right; right.
  destruct (decide (t = "")) as [-> | He]; [reflexivity |].
  apply rank_unlisted; assumption.
Qed.

Lemma rank_write_types t : 2 <= rank t <-> t ∈ _WRITE_TYPES.
Proof.
  rewrite elem_of_WRITE_TYPES.
  destruct (rank_cases t) as [[-> Hr] | [[-> Hr] | [[-> Hr] | [[-> Hr] | Hr]]]];
    rewrite Hr; split; intros H; try lia; try tauto;
    try (destruct H as [H | [H | H]]; discriminate H).
  destruct H as [-> | [-> | ->]]; vm_compute in Hr; discriminate Hr.
Qed.

(** X1.  A batch is blocked exactly when writing is not allowed and the probe
    of some statement gave 'w', 'rw' or 's': one such statement blocks the
    whole batch, and no other combination of query types does. *)
Theorem batch_blocked_iff_some_write_type (qtypes : list string) (allow_write : bool) :
  write_blocked (_most_restrictive_type qtypes) allow_write = true <->
  allow_write = false /\
  exists t, t ∈ qtypes /\ (t = "w" \/ t = "rw" \/ t = "s").
Proof.
  rewrite write_blocked_iff, <- elem_of_WRITE_TYPES. split.
  - intros [Hc Ha]. split; [assumption |].
    destruct qtypes as [| q qtypes].
    + apply elem_of_WRITE_TYPES in Hc. vm_compute in Hc.
      destruct Hc as [Hc | [Hc | Hc]]; discriminate Hc.
    + exists (_most_restrictive_type (q :: qtypes)). split.
      * apply (py_max_spec (fun t => dict_get precedence t 0) "" (q :: qtypes)).
        discriminate.
      * apply elem_of_WRITE_TYPES. exact Hc.
  - intros [Ha (t & Hin & Ht)]. split; [| assumption].
    apply rank_write_types. apply elem_of_WRITE_TYPES, rank_write_types in Ht.
    assert (Hne : qtypes <> []) by (intros ->; apply elem_of_nil in Hin; contradiction).
    destruct (py_max_spec (fun t => dict_get precedence t 0) "" qtypes Hne) as [_ Hmax].
    specialize (Hmax t Hin). unfold rank in *. unfold _most_restrictive_type. lia.
Qed.

(** X2.  The decision of the gate does not depend on the order in which the
    statements of the batch were probed. *)
Theorem gate_ignores_statement_order (qtypes qtypes' : list string) (allow_write : bool) :
  qtypes ≡ₚ qtypes' ->
  write_blocked (_most_restrictive_type qtypes) allow_write =
  write_blocked (_most_restrictive_type qtypes') allow_write.
Proof.
  intros Hperm. apply eq_true_iff_eq.
  rewrite !batch_blocked_iff_some_write_type.
  split; intros [Ha (t & Hin & Ht)]; (split; [assumption |]); exists t;
    (split; [| assumption]).
  - rewrite <- Hperm. exact Hin.
  - rewrite Hperm. exact Hin.
Qed.

Lemma gate_ignores_statement_order_witness :
  write_blocked (_most_restrictive_type ["r"; "w"; ""]) false =
  write_blocked (_most_restrictive_type ["w"; ""; "r"]) false.
Proof.
  apply (gate_ignores_statement_order ["r"; "w"; ""] ["w"; ""; "r"] false).
  apply (Permutation_cons_append ["w"; ""] "r").
Defined.

(** ** What is displayed carries no markup *)

Lemma escape_char_safe c0 c : c ∈ escape_char c0 -> is_markup c = false.
Proof.
  unfold escape_char.
  destruct (Ascii.eqb_spec c0 "&"); [intros H; vm_compute in H; elem_cases H; reflexivity |].
  destruct (Ascii.eqb_spec c0 "<"); [intros H; vm_compute in H; elem_cases H; reflexivity |].
  destruct (Ascii.eqb_spec c0 ">"); [intros H; vm_compute in H; elem_cases H; reflexivity |].
  destruct (Ascii.eqb_spec c0 quote);
    [intros H; vm_compute in H; elem_cases H; reflexivity |].
  destruct (Ascii.eqb_spec c0 apostrophe);
    [intros H; vm_compute in H; elem_cases H; reflexivity |].
  intros H. apply list_elem_of_singleton in H. subst c. unfold is_markup.
  repeat match goal with
         | Hne : c0 <> ?x |- context [Ascii.eqb c0 ?x] =>
             rewrite (proj2 (Ascii.eqb_neq c0 x) Hne)
         end.
  reflexivity.
Qed.

Lemma html_escape_safe s c : c ∈ chars (html_escape s) -> is_markup c = false.
Proof.
  unfold html_escape. rewrite chars_str. intros H.
  apply list_elem_of_In, in_concat in H as (l & Hl & Hc).
  apply list_elem_of_In, list_elem_of_fmap in Hl as (c0 & -> & _).
  apply list_elem_of_In in Hc. exact (escape_char_safe c0 c Hc).
Qed.

(** X3.  The write-blocked block and the error block show the query with
    every angle bracket and quote escaped: no character of the query text
    they carry is a '<', a '>' or a quote, whatever the query is. *)
Theorem rendered_query_has_no_markup (E : Type) (exc : E) (query qtype : string) :
  (exists label text,
     _render_write_blocked_html (E:=E) query qtype = WriteBlockedHtml label text /\
     (forall c, c ∈ chars label -> is_markup c = false) /\
     (forall c, c ∈ chars text -> is_markup c = false)) /\
  (exists text,
     render_error_html exc query = ErrorHtml exc text /\
     (forall c, c ∈ chars text -> is_markup c = false)).
Proof.
  split.
  - eexists _, _. split; [reflexivity |]. split; intros c; apply html_escape_safe.
  - eexists. split; [reflexivity |]. intros c; apply html_escape_safe.
Qed.

(** ** Runs: exceptions, the driver of the call, the write magics *)

Section Run_more.
Context `{DB : Database}.

(** The probes again, with a property that every answer of the driver to an
    EXPLAIN request of the batch has. *)
Lemma probes_run_inv db (P : outcome PyExc Response -> Prop) stmts :
  (forall d stmt, stmt ∈ stmts ->
     P (snd (execute_query d ("EXPLAIN " +:+ stmt) None db))) ->
  forall w, exists d answers,
    for_list (fun stmt => _explain_query_type stmt db) stmts w =
      ({| driver := d;
          trace := trace w ++ zip_with (explain_event db) stmts answers |},
       Return (map probe_type answers)) /\
    length answers = length stmts /\ Forall P answers.
Proof.
  induction stmts as [| stmt stmts IH]; intros HP w.
  - exists (driver w), []. simpl. unfold_M. rewrite app_nil_r.
    destruct w; split_and!; [reflexivity | reflexivity | constructor].
  - simpl for_list. unfold mbind, M_bind, bind at 1.
    rewrite explain_query_type_run.
    pose proof (HP (driver w) stmt ltac:(left)) as H1.
    destruct (execute_query _ _ _ _) as [d1 a1]. simpl in H1.
    destruct (IH (fun d s Hs => HP d s ltac:(right; exact Hs))
                {| driver := d1; trace := trace w ++ [explain_event db stmt a1] |})
      as (d & answers & Hrun & Hlen & Hall).
    exists d, (a1 :: answers). unfold mbind, M_bind, bind at 1. rewrite Hrun.
    simpl. unfold_M. rewrite <- app_assoc. simpl.
    split_and!; [reflexivity | lia | constructor; assumption].
Qed.

Lemma most_restrictive_of_unknown qtypes :
  Forall (fun t => t = "") qtypes -> _most_restrictive_type qtypes = "".
Proof.
  intros Hall. destruct qtypes as [| q qtypes]; [reflexivity |].
  destruct (py_max_spec (fun t => dict_get precedence t 0) "" (q :: qtypes))
    as [Hin _]; [discriminate |].
  rewrite Forall_forall in Hall. apply Hall. exact Hin.
Qed.

Lemma first_statement_executed query stmts params db own w w' fl stmt :
  execute_phase query stmts params db own w = (w', fl) ->
  head stmts = Some stmt ->
  exists answer, execute_event params db stmt answer ∈ trace w'.
Proof.
  intros Hrun Hhead. destruct stmts as [| s stmts]; [discriminate |].
  injection Hhead as ->.
  destruct (execute_phase_run query (stmt :: stmts) params db own w)
    as [(d & responses & Hrun' & Hlen)
       | (d & k & st & exc & responses & Hrun' & Hk & Hlen)];
    rewrite Hrun in Hrun'; injection Hrun' as -> _; simpl trace.
  - destruct responses as [| r responses]; [discriminate Hlen |].
    exists (Return r). simpl. apply elem_of_app. right. left.
  - destruct k as [| k].
    + injection Hk as <-. exists (Raise exc). simpl.
      apply elem_of_app. right. left.
    + destruct responses as [| r responses]; [discriminate Hlen |].
      exists (Return r). simpl. apply elem_of_app. right. left.
Qed.

Lemma execute_phase_never_blocks query stmts params db own w w' fl :
  execute_phase query stmts params db own w = (w', fl) ->
  forall ev, ev ∈ trace w' -> ev ∈ trace w \/ is_write_blocked_block ev = false.
Proof.
  intros Hrun ev Hev.
  destruct (execute_phase_run query stmts params db own w)
    as [(d & responses & Hrun' & Hlen)
       | (d & k & st & exc & responses & Hrun' & Hk & Hlen)];
    rewrite Hrun in Hrun'; injection Hrun' as -> _; simpl trace in Hev;
    elem_cases Hev; try (left; assumption); right; try reflexivity.
  - apply executed_are_answered in Hev as (? & ? & ->). reflexivity.
  - apply elem_of_closing in Hev. subst ev. reflexivity.
  - apply executed_are_answered in Hev as (? & ? & ->). reflexivity.
  - apply elem_of_closing in Hev. subst ev. reflexivity.
Qed.

Lemma execute_phase_outcome query stmts params db own w w' r :
  execute_phase query stmts params db own w = (w', r) ->
  exists d0 fl, driver w' = closed own d0 /\ r = finally_close own d0 (Return fl).
Proof.
  intros Hrun.
  destruct (execute_phase_run query stmts params db own w)
    as [(d0 & ? & Hrun' & _) | (d0 & ? & ? & ? & ? & Hrun' & _)];
    rewrite Hrun in Hrun'; injection Hrun' as -> ->; eexists d0, _;
    split; reflexivity.
Qed.

(** X4.  The probe fails open.  When the EXPLAIN request of every statement
    of the batch raises, the batch is not blocked, with or without the write
    flag: no write-blocked block is displayed and the first statement is
    sent for execution.  The outcome of the run is a return, unless the
    [close] of its own driver raises. *)
Theorem failed_probes_let_the_batch_through args query params db own allow_write d :
  _split_statements query <> [] ->
  no_preflight args = false ->
  (forall d' stmt, stmt ∈ _split_statements query ->
     exists e, snd (execute_query d' ("EXPLAIN " +:+ stmt) None db) = Raise e) ->
  exists w' d0 fl stmt answer,
    _run_cypher args query params db own allow_write (fresh d) =
      (w', finally_close own d0 (Return fl)) /\
    driver w' = closed own d0 /\
    (forall ev, ev ∈ trace w' -> is_write_blocked_block ev = false) /\
    head (_split_statements query) = Some stmt /\
    execute_event params db stmt answer ∈ trace w'.
Proof.
  intros Hne Hpre Hfail.
  destruct (probes_run_inv db (fun a => exists e, a = Raise e)
              (_split_statements query) Hfail (fresh d))
    as (d1 & answers & Hprobe & Hlen & Hall).
  cbn [fresh trace app] in Hprobe.
  rewrite (run_cypher_preflight _ _ _ _ _ _ _ _ _ Hne Hpre Hprobe).
  rewrite most_restrictive_of_unknown.
  2:{ apply Forall_fmap. eapply Forall_impl; [exact Hall |].
      intros a [e ->]. reflexivity. }
  replace (write_blocked "" (granted args allow_write)) with false
    by (destruct (granted args allow_write); reflexivity).
  simpl trace.
  destruct (execute_phase query (_split_statements query) params db own _)
    as [w' r] eqn:Hrun.
  destruct (execute_phase_outcome _ _ _ _ _ _ _ _ Hrun) as (d0 & fl & Hd0 & ->).
  destruct (_split_statements query) as [| stmt stmts] eqn:Hsplit; [congruence |].
  destruct (first_statement_executed _ _ _ _ _ _ _ _ stmt Hrun eq_refl) as [answer Hin].
  exists w', d0, fl, stmt, answer.
  split_and!; [reflexivity | exact Hd0 | | reflexivity | exact Hin].
  intros ev Hev.
  destruct (execute_phase_never_blocks _ _ _ _ _ _ _ _ Hrun ev Hev) as [Hold | Hok];
    [| exact Hok].
  cbn [trace] in Hold.
      apply (elem_of_zip_with_all _ (fun ev => is_write_blocked_block ev = false)) in Hold;
        [exact Hold | reflexivity].
Qed.

(** Case analysis of a membership of a given event: the cases where it
    would be equal to a different constructor are closed. *)
Ltac event_cases H :=
  repeat first
    [ apply elem_of_nil in H; contradiction
    | apply elem_of_cons in H as [H | H]; [try discriminate H |]
    | apply elem_of_app in H as [H | H] ].

(** X5.  [_run_cypher] lets no exception of [execute_query] escape, and it
    closes the driver exactly when the call opened it: the trace ends with
    one close for a driver of its own, and holds no close at all for the
    shared one, whether the batch was empty, blocked, failed or done.  The
    one exception that can leave is that of this [close]: with the shared
    driver the run returns, and with its own it returns exactly when [close]
    does. *)
Theorem run_cypher_closes_its_own_driver args query params db own allow_write d :
  exists w' d0 fl evs,
    _run_cypher args query params db own allow_write (fresh d) =
      (w', finally_close own d0 (Return fl)) /\
    driver w' = closed own d0 /\
    trace w' = evs ++ closing own /\
    (EvClose ∉ evs) /\
    (forall e, snd (_run_cypher args query params db own allow_write (fresh d)) = Raise e ->
       own = true /\ snd (close d0) = Raise e) /\
    (own = false \/ snd (close d0) = Return tt ->
     snd (_run_cypher args query params db own allow_write (fresh d)) = Return fl).
Proof.
  assert (Hend : forall w' d0 fl evs,
             _run_cypher args query params db own allow_write (fresh d) =
               (w', finally_close own d0 (Return fl)) ->
             driver w' = closed own d0 ->
             trace w' = evs ++ closing own ->
             EvClose ∉ evs ->
             exists w' d0 fl evs,
               _run_cypher args query params db own allow_write (fresh d) =
                 (w', finally_close own d0 (Return fl)) /\
               driver w' = closed own d0 /\
               trace w' = evs ++ closing own /\
               (EvClose ∉ evs) /\
               (forall e,
                  snd (_run_cypher args query params db own allow_write (fresh d)) =
                    Raise e ->
                  own = true /\ snd (close d0) = Raise e) /\
               (own = false \/ snd (close d0) = Return tt ->
                snd (_run_cypher args query params db own allow_write (fresh d)) =
                  Return fl)).
  { intros w' d0 fl evs Hrun Hd Htr Hno. exists w', d0, fl, evs.
    split_and!; try assumption; rewrite Hrun; simpl snd.
    - intros e. apply finally_close_Raise.
    - unfold finally_close. intros [-> | Hc]; [reflexivity |].
      rewrite Hc. destruct own; reflexivity. }
  destruct (decide (_split_statements query = [])) as [He | Hne].
  - apply (Hend _ d Returned [EvDisplay NoQueryHtml]
             (run_cypher_empty _ _ _ _ _ _ _ He)); [reflexivity | reflexivity |].
    intros H. event_cases H.
  - destruct (run_cypher_shape args query params db own allow_write d Hne)
      as (d' & evs & fl & Hrun & Hshape).
    assert (Hprobes : forall probes,
               admitted_probes args query db (granted args allow_write) probes ->
               EvClose ∉ probes).
    { intros probes Hadm H. apply (probes_are_explain _ _ _ _ _ Hadm) in H.
      discriminate. }
    assert (Hexec : forall stmts responses,
               EvClose ∉ zip_with (executed params db) stmts responses).
    { intros stmts responses H.
      apply executed_are_answered in H as (? & ? & H). discriminate. }
    destruct Hshape as [answers Hpre Hlen Hgate
                       | probes k stmt exc responses Hadm Hk Hlen
                       | probes responses Hadm Hlen].
    + apply (Hend _ d' Returned
               (zip_with (explain_event db) (_split_statements query) answers
                ++ [EvDisplay (_render_write_blocked_html query
                                 (_most_restrictive_type (map probe_type answers)))])
               Hrun); [reflexivity | simpl; rewrite <- app_assoc; reflexivity |].
      intros H. event_cases H.
      apply (elem_of_zip_with_all _ (fun ev => is_explain_request ev = true)) in H;
        [discriminate | reflexivity].
    + apply (Hend _ d' Returned
               (probes
                ++ zip_with (executed params db) (take k (_split_statements query))
                     responses
                ++ [execute_event params db stmt (Raise exc);
                    EvDisplay (render_error_html exc query)])
               Hrun); [reflexivity | simpl; rewrite <- !app_assoc; reflexivity |].
      intros H. event_cases H; [exact (Hprobes _ Hadm H) | exact (Hexec _ _ H)].
    + apply (Hend _ d' _
               (probes
                ++ zip_with (executed params db) (_split_statements query) responses)
               Hrun); [reflexivity | simpl; rewrite <- !app_assoc; reflexivity |].
      intros H. event_cases H; [exact (Hprobes _ Hadm H) | exact (Hexec _ _ H)].
Qed.

Lemma run_cypher_flags args args' query params db own aw aw' w :
  no_preflight args = no_preflight args' ->
  granted args aw = granted args' aw' ->
  _run_cypher args query params db own aw w =
  _run_cypher args' query params db own aw' w.
Proof.
  intros Hpre Hgr. unfold _run_cypher. unfold granted in Hgr.
  rewrite Hpre, Hgr. reflexivity.
Qed.

(** X6.  [%wcypher] is [%cypher --write]: the two go the same way on every
    query.  Neither is ever blocked: on a batch that is not empty no
    write-blocked block is displayed and the first statement is sent for
    execution, whatever the probes report; the outcome is a return, unless
    the [close] of the call's own driver raises. *)
Theorem wcypher_is_cypher_with_write args args' query params db own d :
  args_allow_write args' = true ->
  no_preflight args' = no_preflight args ->
  wcypher args query params db own (fresh d) =
    cypher args' query params db own (fresh d) /\
  (_split_statements query <> [] ->
   exists w' d0 fl stmt answer,
     wcypher args query params db own (fresh d) =
       (w', finally_close own d0 (Return fl)) /\
     driver w' = closed own d0 /\
     (forall ev, ev ∈ trace w' -> is_write_blocked_block ev = false) /\
     head (_split_statements query) = Some stmt /\
     execute_event params db stmt answer ∈ trace w').
Proof.
  intros Hw Hpre. split.
  - unfold wcypher, cypher. apply run_cypher_flags; [congruence |].
    unfold granted. rewrite Hw. destruct (args_allow_write args); reflexivity.
  - intros Hne. unfold wcypher.
    assert (Hgr : granted args true = true)
      by (unfold granted; destruct (args_allow_write args); reflexivity).
    assert (Hopen : forall c, write_blocked c (granted args true) = false).
    { intros c. rewrite Hgr. unfold write_blocked. apply andb_false_r. }
    destruct (_split_statements query) as [| stmt stmts] eqn:Hsplit; [congruence |].
    destruct (no_preflight args) eqn:Hno.
    + pose proof (run_cypher_no_preflight args query params db own true (fresh d)) as Hrun.
      rewrite Hsplit in Hrun. rewrite Hrun by (discriminate || assumption).
      destruct (execute_phase query (stmt :: stmts) params db own (fresh d))
        as [w' r] eqn:Hphase.
      destruct (execute_phase_outcome _ _ _ _ _ _ _ _ Hphase) as (d0 & fl & Hd0 & ->).
      destruct (first_statement_executed _ _ _ _ _ _ _ _ stmt Hphase eq_refl)
        as [answer Hin].
      exists w', d0, fl, stmt, answer.
      split_and!; [reflexivity | exact Hd0 | | reflexivity | exact Hin].
      intros ev Hev.
      destruct (execute_phase_never_blocks _ _ _ _ _ _ _ _ Hphase ev Hev) as [Hold | Hok];
        [| exact Hok].
      simpl in Hold. apply elem_of_nil in Hold. contradiction.
    + destruct (probes_run db (stmt :: stmts) (fresh d)) as (d1 & answers & Hprobe & Hlen).
      cbn [fresh trace app] in Hprobe.
      pose proof (run_cypher_preflight args query params db own true (fresh d)) as Hrun.
      rewrite Hsplit in Hrun. rewrite (Hrun _ _ ltac:(discriminate) Hno Hprobe).
      rewrite Hopen. simpl trace.
      destruct (execute_phase query (stmt :: stmts) params db own _)
        as [w' r] eqn:Hphase.
      destruct (execute_phase_outcome _ _ _ _ _ _ _ _ Hphase) as (d0 & fl & Hd0 & ->).
      destruct (first_statement_executed _ _ _ _ _ _ _ _ stmt Hphase eq_refl)
        as [answer Hin].
      exists w', d0, fl, stmt, answer.
      split_and!; [reflexivity | exact Hd0 | | reflexivity | exact Hin].
      intros ev Hev.
      destruct (execute_phase_never_blocks _ _ _ _ _ _ _ _ Hphase ev Hev) as [Hold | Hok];
        [| exact Hok].
      cbn [trace] in Hold.
      apply (elem_of_zip_with_all _ (fun ev => is_write_blocked_block ev = false)) in Hold;
        [exact Hold | reflexivity].
Qed.

End Run_more.

Lemma failed_probes_let_the_batch_through_witness :
  exists answer,
    execute_event (DB:=Toy.toy) [] "neo4j" "BROKEN" answer
      ∈ trace (fst (Toy.run Toy.probing "BROKEN" false 10)).
Proof.
  destruct (failed_probes_let_the_batch_through (DB:=Toy.toy) Toy.probing "BROKEN"
              [] "neo4j" true false 10)
    as (w' & d0 & fl & stmt & answer & Hrun & _ & _ & Hhead & Hin).
  - vm_compute. discriminate.
  - reflexivity.
  - intros d' stmt Hstmt. vm_compute in Hstmt. elem_cases Hstmt.
    destruct d' as [| d']; [exists "ServiceUnavailable" | exists "CypherSyntaxError"];
      reflexivity.
  - vm_compute in Hhead. injection Hhead as <-. exists answer.
    unfold Toy.run, Toy.start, Toy.world. unfold fresh in Hrun. rewrite Hrun. exact Hin.
Defined.

Lemma wcypher_is_cypher_with_write_witness :
  wcypher (DB:=Toy.toy) Toy.probing "CREATE (n)" [] "neo4j" true (Toy.start 10) =
  cypher (DB:=Toy.toy) {| args_allow_write := true; no_preflight := false |}
    "CREATE (n)" [] "neo4j" true (Toy.start 10).
Proof.
  apply (wcypher_is_cypher_with_write (DB:=Toy.toy) Toy.probing
           {| args_allow_write := true; no_preflight := false |}
           "CREATE (n)" [] "neo4j" true 10); reflexivity.
Defined.

(** ** [_extract_query_from_line] *)

Lemma extract_loop_acc tokens : forall skip acc,
  extract_loop tokens skip acc = acc ++ extract_loop tokens skip [].
Proof.
  induction tokens as [| tok tokens IH]; intros skip acc; simpl.
  - rewrite app_nil_r. reflexivity.
  - destruct skip; [apply IH |].
    destruct (bool_decide (tok ∈ _FLAGS_WITH_VALUES)); [apply IH |].
    destruct (bool_decide (tok ∈ _BOOL_FLAGS)); [apply IH |].
    rewrite (IH false (acc ++ [tok])), (IH false [tok]), <- app_assoc.
    reflexivity.
Qed.

Lemma extract_loop_sublist tokens : forall skip,
  extract_loop tokens skip [] `sublist_of` tokens.
Proof.
  induction tokens as [| tok tokens IH]; intros skip; simpl; [constructor |].
  destruct skip; [apply sublist_cons, IH |].
  destruct (bool_decide (tok ∈ _FLAGS_WITH_VALUES)); [apply sublist_cons, IH |].
  destruct (bool_decide (tok ∈ _BOOL_FLAGS)); [apply sublist_cons, IH |].
  rewrite extract_loop_acc. simpl. apply sublist_skip, IH.
Qed.

Lemma extract_loop_no_flag tokens : forall skip t,
  t ∈ extract_loop tokens skip [] ->
  (t ∉ _FLAGS_WITH_VALUES) /\ (t ∉ _BOOL_FLAGS).
Proof.
  induction tokens as [| tok tokens IH]; intros skip t; simpl.
  - intros H. apply elem_of_nil in H. contradiction.
  - destruct skip; [apply IH |].
    destruct (bool_decide (tok ∈ _FLAGS_WITH_VALUES)) eqn:Hv; [apply IH |].
    destruct (bool_decide (tok ∈ _BOOL_FLAGS)) eqn:Hb; [apply IH |].
    rewrite extract_loop_acc. simpl. intros H.
    apply elem_of_cons in H as [-> | H]; [| exact (IH _ _ H)].
    apply bool_decide_eq_false in Hv, Hb. split; assumption.
Qed.

Lemma extract_loop_keeps_words words :
  (forall t, t ∈ words -> (t ∉ _FLAGS_WITH_VALUES) /\ (t ∉ _BOOL_FLAGS)) ->
  extract_loop words false [] = words.
Proof.
  induction words as [| w words IH]; intros Hw; [reflexivity |].
  simpl. destruct (Hw w ltac:(left)) as [Hv Hb].
  rewrite (bool_decide_eq_false_2 _ Hv), (bool_decide_eq_false_2 _ Hb).
  rewrite extract_loop_acc. simpl. f_equal. apply IH.
  intros t Ht. apply Hw. right. exact Ht.
Qed.

(** X7.  Whatever the tokens of the line are, the query that
    [_extract_query_from_line] returns is made of tokens of the line, in
    their order, and none of them is a flag; a second pass over them keeps
    them all.  An error of the tokenizer is passed on. *)
Theorem extract_query_drops_every_flag (E : Type)
    (shlex_split : string -> outcome E (list string)) (line : string) :
  match shlex_split line with
  | Raise e => _extract_query_from_line shlex_split line = Raise e
  | Return tokens =>
      exists kept,
        _extract_query_from_line shlex_split line = Return (str_join " " kept) /\
        kept `sublist_of` tokens /\
        (forall t, t ∈ kept -> (t ∉ _FLAGS_WITH_VALUES) /\ (t ∉ _BOOL_FLAGS)) /\
        extract_loop kept false [] = kept
  end.
Proof.
  unfold _extract_query_from_line.
  destruct (shlex_split line) as [tokens | e]; [| reflexivity].
  exists (extract_loop tokens false []).
  split_and!; [reflexivity | apply extract_loop_sublist | apply extract_loop_no_flag |].
  apply extract_loop_keeps_words, extract_loop_no_flag.
Qed.

Lemma extract_loop_items items :
  Forall well_formed_item items ->
  extract_loop (concat (map item_tokens items)) false [] =
  concat (map item_words items).
Proof.
  induction 1 as [| it items Hit _ IH]; [reflexivity |].
  destruct it as [w | f | f v]; simpl in *.
  - destruct Hit as [Hv Hb].
    rewrite (bool_decide_eq_false_2 _ Hv), (bool_decide_eq_false_2 _ Hb).
    rewrite extract_loop_acc. simpl. f_equal. exact IH.
  - destruct Hit as [Hv Hb].
    rewrite (bool_decide_eq_false_2 _ Hv), (bool_decide_eq_true_2 _ Hb). exact IH.
  - rewrite (bool_decide_eq_true_2 _ Hit). exact IH.
Qed.

(** X8.  On a line made of query words, switches and settings, each setting
    followed by its value, [_extract_query_from_line] returns the query
    words joined by single spaces: every switch and every setting goes,
    together with the value of the setting, whatever that value is and
    wherever on the line the option stands. *)
Theorem extract_query_of_well_formed_line (E : Type)
    (shlex_split : string -> outcome E (list string)) (line : string)
    (items : list line_item) :
  shlex_split line = Return (concat (map item_tokens items)) ->
  Forall well_formed_item items ->
  _extract_query_from_line shlex_split line =
  Return (str_join " " (concat (map item_words items))).
Proof.
  intros Hsplit Hwf. unfold _extract_query_from_line.
  rewrite Hsplit, extract_loop_items by assumption. reflexivity.
Qed.

Lemma extract_query_of_well_formed_line_witness :
  _extract_query_from_line (E:=unit)
    (fun _ => Return ["-o"; "--df"; "MATCH"; "--write"; "(n)"; "-d"; "movies"; "RETURN"; "n"])
    "-o --df MATCH --write (n) -d movies RETURN n" =
  Return "MATCH (n) RETURN n".
Proof.
  apply (extract_query_of_well_formed_line unit _ _
           [Setting "-o" "--df"; Word "MATCH"; Switch "--write"; Word "(n)";
            Setting "-d" "movies"; Word "RETURN"; Word "n"]).
  - reflexivity.
  - repeat constructor; vm_compute; try reflexivity; intros H; discriminate H.
Defined.

(** ** [connection.py] and the [%neo4j] magic *)

Module Connection_facts.
Import Connection.

Lemma or_str_nonempty a b : b <> "" -> or_str a b <> "".
Proof.
  intros Hb. unfold or_str. destruct a as [[| c s] |]; simpl; congruence.
Qed.

Lemma new_config_database u n p d : database (new_config u n p d) <> "".
Proof. simpl. apply or_str_nonempty. discriminate. Qed.

Section Session.
Context `{Lib : Neo4jLib}.

Lemma close_installed_session s s1 answer :
  close_installed s = (s1, answer) ->
  _driver s1 = _driver s /\ _config s1 = _config s /\
  match _driver s with
  | Some old =>
      calls s1 = calls s ++ [CallClose old] /\
      snd (close_handle (net s) old) = answer
  | None => s1 = s /\ answer = Return tt
  end.
Proof.
  unfold close_installed. destruct (_driver s) as [old |] eqn:Hd.
  - destruct (close_handle (net s) old) as [n1 a]. intros [= <- <-]. simpl.
    rewrite ?Hd. auto.
  - intros [= <- <-]. rewrite ?Hd. auto.
Qed.

(** What [connect] does, case by case. *)
Lemma connect_cases env u n p d s :
  exists cfg s1 closed,
    database cfg <> "" /\
    (u = None -> cfg = from_env env) /\
    close_installed s = (s1, closed) /\
    match closed with
    | Raise e => connect env u n p d s = (s1, Raise (LibError e))
    | Return _ =>
        exists made n2,
          graph_driver (net s1) (uri cfg) (username cfg) (password cfg) = (n2, made) /\
          match made with
          | Raise e =>
              connect env u n p d s =
                ({| _driver := _driver s; _config := _config s; net := n2;
                    calls := calls s1
                             ++ [CallDriver (uri cfg) (username cfg) (password cfg) made] |},
                 Raise (LibError e))
          | Return h =>
              exists n3 verified,
                verify_connectivity n2 h = (n3, verified) /\
                connect env u n p d s =
                  ({| _driver := Some h;
                      _config := match verified with
                                 | Return _ => Some cfg
                                 | Raise _ => _config s
                                 end;
                      net := n3;
                      calls := calls s1
                               ++ [CallDriver (uri cfg) (username cfg) (password cfg) made]
                               ++ [CallVerify h verified] |},
                   match verified with
                   | Return _ => Return tt
                   | Raise e => Raise (LibError e)
                   end)
          end
    end.
Proof.
  unfold connect. cbv zeta.
  destruct (close_installed s) as [s1 closed] eqn:Hcl.
  destruct (close_installed_session _ _ _ Hcl) as (Hd & Hc & _).
  exists (requested_config env u n p d), s1, closed. split_and!.
  - unfold requested_config, from_env. destruct u; apply new_config_database.
  - intros ->. reflexivity.
  - reflexivity.
  - destruct closed as [[] | e]; [| reflexivity].
    destruct (graph_driver (net s1) _ _ _) as [n2 made] eqn:Hmade.
    exists made, n2. split; [reflexivity |].
    destruct made as [h | e].
    + destruct (verify_connectivity n2 h) as [n3 verified] eqn:Hver.
      exists n3, verified. split; [reflexivity |].
      rewrite <- app_assoc, Hc. destruct verified; reflexivity.
    + rewrite Hd, Hc. reflexivity.
Qed.

(** X9.  After a [connect] that returns, the session has a driver and a
    configuration whose database name is not empty: a missing or empty name
    falls back to NEO4J_DATABASE and then to 'neo4j'.  [get_database] gives
    that name and [status_html] does not raise. *)
Theorem connect_success_state env u n p d s s' :
  connect env u n p d s = (s', Return tt) ->
  exists h cfg,
    _driver s' = Some h /\ _config s' = Some cfg /\
    database cfg <> "" /\
    get_database env s' = database cfg /\
    status_html s' = Return (ConnectedHtml (uri cfg) (username cfg) (database cfg)).
Proof.
  intros Hrun.
  destruct (connect_cases env u n p d s) as (cfg & s1 & closed & Hdb & _ & _ & H).
  destruct closed as [[] | e]; [| rewrite Hrun in H; discriminate].
  destruct H as (made & n2 & _ & H). destruct made as [h | e].
  - destruct H as (n3 & verified & _ & H). rewrite Hrun in H.
    destruct verified as [[] | e]; [| discriminate].
    injection H as ->. exists h, cfg. split_and!; (reflexivity || assumption).
  - rewrite Hrun in H. discriminate.
Qed.

(** X10.  When a driver is installed, [connect] closes it before it makes
    the new one, and closes nothing else, whether the new connection
    succeeds or not.  When that [close] raises, [connect] raises with it and
    stops there: no driver is made, and the session keeps the driver and the
    configuration it had. *)
Theorem reconnect_closes_previous_driver env u n p d s old :
  _driver s = Some old ->
  match snd (close_handle (net s) old) with
  | Return _ =>
      exists made_uri made_user made_pass made rest,
        calls (fst (connect env u n p d s)) =
          calls s ++ [CallClose old; CallDriver made_uri made_user made_pass made] ++ rest /\
        forall c, c ∈ rest -> is_close_call c = false
  | Raise e =>
      snd (connect env u n p d s) = Raise (LibError e) /\
      calls (fst (connect env u n p d s)) = calls s ++ [CallClose old] /\
      _driver (fst (connect env u n p d s)) = Some old /\
      _config (fst (connect env u n p d s)) = _config s
  end.
Proof.
  intros Hold.
  destruct (connect_cases env u n p d s) as (cfg & s1 & closed & _ & _ & Hcl & H).
  destruct (close_installed_session _ _ _ Hcl) as (Hd1 & Hc1 & Hs1).
  rewrite Hold in Hs1. destruct Hs1 as [Hcalls Hans]. rewrite Hans.
  destruct closed as [[] | e].
  - destruct H as (made & n2 & _ & H).
    exists (uri cfg), (username cfg), (password cfg), made.
    destruct made as [h | e].
    + destruct H as (n3 & verified & _ & ->). exists [CallVerify h verified].
      simpl. rewrite Hcalls, <- !app_assoc. split; [reflexivity |].
      intros c Hc. apply list_elem_of_singleton in Hc. subst c. reflexivity.
    + rewrite H. exists []. simpl. rewrite Hcalls, <- !app_assoc. split; [reflexivity |].
      intros c Hc. apply elem_of_nil in Hc. contradiction.
  - rewrite H. simpl.
    split_and!; [reflexivity | exact Hcalls | rewrite Hd1; exact Hold | exact Hc1].
Qed.

(** X11.  A [connect] that raises leaves the configuration as it was.  The
    driver is as it was (a driver that [connect] has already closed, if there
    was one) when making the new driver raised, and it is the new driver, not
    verified, when the verification raised.  When closing the driver that was
    installed raised, that driver is still the one installed. *)
Theorem failed_connect_keeps_configuration env u n p d s s' exc :
  connect env u n p d s = (s', Raise exc) ->
  _config s' = _config s /\
  ((exists e made_uri made_user made_pass,
      exc = LibError e /\ _driver s' = _driver s /\
      last (calls s') = Some (CallDriver made_uri made_user made_pass (Raise e))) \/
   (exists e h,
      exc = LibError e /\ _driver s' = Some h /\
      last (calls s') = Some (CallVerify h (Raise e))) \/
   (exists e old,
      exc = LibError e /\ _driver s = Some old /\ _driver s' = Some old /\
      snd (close_handle (net s) old) = Raise e /\
      last (calls s') = Some (CallClose old))).
Proof.
  intros Hrun.
  destruct (connect_cases env u n p d s) as (cfg & s1 & closed & _ & _ & Hcl & H).
  destruct (close_installed_session _ _ _ Hcl) as (Hd1 & Hc1 & Hs1).
  destruct closed as [[] | e].
  - destruct H as (made & n2 & _ & H). destruct made as [h | e].
    + destruct H as (n3 & verified & _ & H). rewrite Hrun in H.
      destruct verified as [[] | e]; [discriminate |].
      injection H as -> ->. split; [reflexivity |]. right. left. exists e, h.
      split_and!; [reflexivity | reflexivity |].
      cbn [calls]. rewrite last_app. reflexivity.
    + rewrite Hrun in H. injection H as -> ->. split; [reflexivity |]. left.
      exists e, (uri cfg), (username cfg), (password cfg).
      split_and!; [reflexivity | reflexivity |]. cbn [calls]. rewrite last_app. reflexivity.
  - rewrite Hrun in H. injection H as -> ->. split; [exact Hc1 |]. right. right.
    destruct (_driver s) as [old |] eqn:Hold.
    + destruct Hs1 as [Hcalls Hans]. exists e, old.
      split_and!; [reflexivity | reflexivity | rewrite Hd1; reflexivity | exact Hans |].
      rewrite Hcalls, last_app. reflexivity.
    + destruct Hs1 as [_ Hans]. discriminate Hans.
Qed.

(** X12.  [close] is all or nothing.  Without a driver it does nothing.  With
    a driver [h] it calls [h.close()] and nothing else; when that returns,
    the session has no driver and no configuration, [get_database] goes back
    to the environment, the status is 'not connected' and a second [close]
    does nothing; when it raises, the exception leaves [close] and the
    session keeps [h] and its configuration. *)
Theorem close_resets_session env s :
  match _driver s with
  | None => close s = (s, Return tt)
  | Some h =>
      calls (fst (close s)) = calls s ++ [CallClose h] /\
      match snd (close_handle (net s) h) with
      | Return _ =>
          snd (close s) = Return tt /\
          is_connected (fst (close s)) = false /\
          _config (fst (close s)) = None /\
          get_database env (fst (close s)) = dict_get env "NEO4J_DATABASE" "neo4j" /\
          status_html (fst (close s)) = Return NotConnectedHtml /\
          close (fst (close s)) = (fst (close s), Return tt)
      | Raise e =>
          snd (close s) = Raise (LibError e) /\
          _driver (fst (close s)) = Some h /\
          _config (fst (close s)) = _config s
      end
  end.
Proof.
  destruct (_driver s) as [h |] eqn:Hd.
  - unfold close, is_connected, get_database, status_html. rewrite Hd.
    destruct (close_handle (net s) h) as [n1 [[] | e]]; simpl.
    + split_and!; reflexivity.
    + rewrite ?Hd. split_and!; reflexivity.
  - unfold close. rewrite Hd. reflexivity.
Qed.

(** X13.  [get_driver] never hands out [None]: when it returns, the session
    has the driver it returns.  With a driver installed it calls nothing and
    changes nothing. *)
Theorem get_driver_returns_installed_driver env s s' r :
  get_driver env s = (s', Return r) ->
  (exists h, r = Some h /\ _driver s' = Some h) /\
  (is_connected s = true -> s' = s).
Proof.
  unfold get_driver, is_connected. destruct (_driver s) as [h |] eqn:Hd.
  - intros [= <- <-]. split; [eauto | reflexivity].
  - destruct (connect env None None None None s) as [s1 [[] | e]] eqn:Hc;
      [| discriminate].
    intros [= <- <-]. split; [| discriminate].
    destruct (connect_success_state _ _ _ _ _ _ _ Hc) as (h & cfg & Hh & _).
    exists h. split; assumption.
Qed.

Lemma neo4j_session_cases fs env args s :
  let s' := fst (fst (neo4j fs env args s)) in
  s' = s \/ s' = fst (close s) \/
  exists u n p d, s' = fst (connect env u n p d s).
Proof.
  unfold neo4j. destruct (arg_close args).
  { right. left. destruct (close s) as [s1 [[] | e]]; reflexivity. }
  destruct (arg_status args).
  { destruct (status_html s); left; reflexivity. }
  destruct (if truthy_opt (arg_env_file args) then _ else _)
    as [shown [[loaded |] | e]]; [| left; reflexivity | left; reflexivity].
  right. right. eexists _, _, _, _.
  destruct (connect env _ _ _ _ s) as [s1 [[] | e]] eqn:Hc; simpl.
  - destruct (status_html s1); rewrite Hc; reflexivity.
  - rewrite Hc. reflexivity.
Qed.

(** X14.  In every session that [connect], [get_driver], [close] and the
    [%neo4j] magic make from a session with no driver, a configuration is
    there only beside a driver, and its database name is not empty. *)
Theorem configuration_implies_driver fs env s :
  reachable fs env s ->
  forall cfg, _config s = Some cfg ->
    is_connected s = true /\ database cfg <> "".
Proof.
  assert (Hconnect : forall s u n p d,
             (forall cfg, _config s = Some cfg ->
                is_connected s = true /\ database cfg <> "") ->
             forall cfg, _config (fst (connect env u n p d s)) = Some cfg ->
               is_connected (fst (connect env u n p d s)) = true /\ database cfg <> "").
  { intros s0 u n p d IH cfg.
    destruct (connect_cases env u n p d s0)
      as (cfg' & s1 & closed & Hdb & _ & Hcl & H).
    destruct (close_installed_session _ _ _ Hcl) as (Hd1 & Hc1 & _).
    destruct closed as [[] | e].
    - destruct H as (made & n2 & _ & H). destruct made as [h | e].
      + destruct H as (n3 & verified & _ & ->). simpl.
        destruct verified as [[] | e].
        * intros [= <-]. split; [reflexivity | assumption].
        * intros Hc. split; [reflexivity | apply (IH cfg Hc)].
      + rewrite H. simpl. exact (IH cfg).
    - rewrite H. simpl. unfold is_connected. rewrite Hd1, Hc1. exact (IH cfg). }
  assert (Hclose : forall s,
             (forall cfg, _config s = Some cfg ->
                is_connected s = true /\ database cfg <> "") ->
             forall cfg, _config (fst (close s)) = Some cfg ->
               is_connected (fst (close s)) = true /\ database cfg <> "").
  { intros s0 IH cfg. unfold close. destruct (_driver s0) eqn:Hd; simpl.
    - destruct (close_handle (net s0) _) as [n1 [[] | e]]; simpl; [discriminate |].
      unfold is_connected. simpl. rewrite ?Hd. intros Hc. split; [reflexivity |].
      apply (IH cfg Hc).
    - exact (IH cfg). }
  induction 1 as [n | s u n p d _ IH | s _ IH | s _ IH | s args _ IH].
  - discriminate.
  - apply Hconnect, IH.
  - unfold get_driver. destruct (_driver s) eqn:Hd; [exact IH |].
    pose proof (Hconnect s None None None None IH) as H.
    destruct (connect env None None None None s) as [s1 [[] | e]]; exact H.
  - apply Hclose, IH.
  - destruct (neo4j_session_cases fs env args s) as [-> | [-> | (u & n & p & d & ->)]].
    + exact IH.
    + apply Hclose, IH.
    + apply Hconnect, IH.
Qed.

(** X15.  The [%neo4j] magic displays a failure to connect and does not
    raise it.  An exception leaves the magic in four cases only: with
    [--close], when closing the installed driver raises; with [--status],
    the [AttributeError] of a session that has a driver and no
    configuration; with [--env-file], when looking for the file raises, and
    when reading it raises. *)
Theorem neo4j_magic_exceptions fs env args s exc :
  snd (neo4j fs env args s) = Some exc <->
  (arg_close args = true /\
   exists h e, _driver s = Some h /\ snd (close_handle (net s) h) = Raise e /\
               exc = LibError e) \/
  (arg_close args = false /\ arg_status args = true /\
   is_connected s = true /\ _config s = None /\ exc = AttributeError) \/
  (arg_close args = false /\ arg_status args = false /\
   exists path e,
     arg_env_file args = Some path /\ truthy path = true /\
     dotenv_installed fs = true /\ exc = LibError e /\
     (file_exists fs path = Raise e \/
      file_exists fs path = Return true /\ dotenv_values fs path = Raise e)).
Proof.
  unfold neo4j. destruct (arg_close args).
  { unfold close. destruct (_driver s) as [h |] eqn:Hd; simpl.
    - destruct (close_handle (net s) h) as [n1 [[] | e]] eqn:Hc; simpl; split.
      + discriminate.
      + intros [(_ & h' & e & [= <-] & He & _) | [(H & _) | (H & _)]];
          rewrite ?Hc in *; discriminate.
      + intros [= <-]. left. split; [reflexivity |]. exists h, e.
        split_and!; [reflexivity | rewrite Hc; reflexivity | reflexivity].
      + intros [(_ & h' & e' & [= <-] & He & ->) | [(H & _) | (H & _)]];
          try discriminate.
        rewrite Hc in He. simpl in He. injection He as ->. reflexivity.
    - split; [discriminate |].
      intros [(_ & h' & e & H & _) | [(H & _) | (H & _)]]; discriminate. }
  destruct (arg_status args).
  { unfold status_html. destruct (is_connected s); simpl.
    - destruct (_config s); simpl; split.
      + discriminate.
      + intros [(H & _) | [(_ & _ & _ & H & _) | (_ & H & _)]]; discriminate.
      + intros [= <-]. right. left. split_and!; reflexivity.
      + intros [(H & _) | [(_ & _ & _ & _ & ->) | (_ & H & _)]];
          try discriminate. reflexivity.
    - split; [discriminate |].
      intros [(H & _) | [(_ & _ & H & _) | (_ & H & _)]]; discriminate. }
  assert (Hconn : forall shown (loaded : gmap string string),
             snd (let env_uri := loaded !! "NEO4J_URI" in
                  let env_user :=
                    or_opt (loaded !! "NEO4J_USERNAME") (loaded !! "NEO4J_USER") in
                  let env_pass := loaded !! "NEO4J_PASSWORD" in
                  let env_db := loaded !! "NEO4J_DATABASE" in
                  match connect env (or_opt (arg_uri args) env_uri)
                          (or_opt (arg_username args) env_user)
                          (or_opt (arg_password args) env_pass)
                          (or_opt (arg_database args) env_db) s with
                  | (s', Return _) =>
                      match status_html s' with
                      | Return st => (s', shown ++ [ConnectedShown st], None)
                      | Raise e => (s', shown ++ [ConnectionErrorHtml e], None)
                      end
                  | (s', Raise e) => (s', shown ++ [ConnectionErrorHtml e], None)
                  end) <> Some exc).
  { intros shown loaded. cbv zeta.
    destruct (connect env _ _ _ _ s) as [s1 [[] | e]]; [| discriminate].
    destruct (status_html s1); discriminate. }
  destruct (arg_env_file args) as [path |] eqn:Hfile; simpl truthy_opt.
  2:{ split; [intros H; exfalso; exact (Hconn _ _ H) |].
      intros [(H & _) | [(_ & H & _) | (_ & _ & path & e & H & _)]]; discriminate. }
  destruct (truthy path) eqn:Hpath.
  2:{ split; [intros H; exfalso; exact (Hconn _ _ H) |].
      intros [(H & _) | [(_ & H & _) | (_ & _ & path' & e & [= <-] & H & _)]];
        try discriminate. congruence. }
  simpl default. unfold _load_env_file.
  destruct (dotenv_installed fs) eqn:Hinst; simpl negb; cbv iota.
  2:{ split; [discriminate |].
      intros [(H & _) | [(_ & H & _) | (_ & _ & path' & e & _ & _ & H & _)]];
        discriminate. }
  destruct (file_exists fs path) as [[|] | e] eqn:Hex.
  - destruct (dotenv_values fs path) as [pairs | e] eqn:Hval.
    + split; [intros H; exfalso; exact (Hconn _ _ H) |].
      intros [(H & _) | [(_ & H & _) | (_ & _ & path' & e & [= <-] & _ & _ & _ & H)]];
        try discriminate.
      destruct H as [H | [_ H]]; congruence.
    + simpl. split.
      * intros [= <-]. right. right. split_and!; try reflexivity.
        exists path, e. split_and!; auto.
      * intros [(H & _) | [(_ & H & _) | (_ & _ & path' & e' & [= <-] & _ & _ & -> & H)]];
          try discriminate.
        destruct H as [H | [_ H]]; congruence.
  - simpl. split; [discriminate |].
    intros [(H & _) | [(_ & H & _) | (_ & _ & path' & e & [= <-] & _ & _ & _ & H)]];
      try discriminate.
    destruct H as [H | [H _]]; congruence.
  - simpl. split.
    + intros [= <-]. right. right. split_and!; try reflexivity.
      exists path, e. split_and!; auto.
    + intros [(H & _) | [(_ & H & _) | (_ & _ & path' & e' & [= <-] & _ & _ & -> & H)]];
        try discriminate.
      destruct H as [H | [H _]]; congruence.
Qed.

(** X16.  A first [connect] whose verification fails leaves a session that
    counts as connected and has no configuration: [%neo4j --status] on it
    raises [AttributeError] instead of displaying a status. *)
Theorem status_raises_after_unverified_connect fs env u n p d net0 s' exc args :
  connect env u n p d (initial net0) = (s', Raise exc) ->
  is_connected s' = true ->
  arg_close args = false -> arg_status args = true ->
  neo4j fs env args s' = (s', [], Some AttributeError).
Proof.
  intros Hrun Hconn Hclose Hstatus.
  destruct (failed_connect_keeps_configuration _ _ _ _ _ _ _ _ Hrun) as [Hcfg _].
  simpl in Hcfg. unfold neo4j, status_html.
  rewrite Hclose, Hstatus, Hconn, Hcfg. reflexivity.
Qed.

(** X17.  Without a URI on the line and without [--env-file], the magic
    connects from the environment alone: the user, the password and the
    database given on the line are not used. *)
Theorem neo4j_magic_ignores_credentials_without_uri fs env args args' s :
  truthy_opt (arg_uri args) = false ->
  truthy_opt (arg_env_file args) = false ->
  arg_uri args' = arg_uri args -> arg_env_file args' = arg_env_file args ->
  arg_close args' = arg_close args -> arg_status args' = arg_status args ->
  neo4j fs env args' s = neo4j fs env args s /\
  (arg_close args = false -> arg_status args = false ->
   forall cfg, _config (fst (fst (neo4j fs env args s))) = Some cfg ->
     cfg = from_env env \/ _config s = Some cfg).
Proof.
  intros Huri Hfile Eu Ef Ec Es.
  assert (Hnone : or_opt (arg_uri args) (@lookup _ _ (gmap string string) _ "NEO4J_URI" ∅) = None).
  { rewrite lookup_empty. destruct (arg_uri args) as [[| c t] |];
      [reflexivity | discriminate Huri | reflexivity]. }
  split.
  - unfold neo4j. rewrite Eu, Ef, Ec, Es, Hfile, Hnone. reflexivity.
  - intros Hc Hs cfg. unfold neo4j. rewrite Hc, Hs, Hfile, Hnone.
    destruct (connect_cases env None
                (or_opt (arg_username args)
                   (or_opt (@lookup _ _ (gmap string string) _ "NEO4J_USERNAME" ∅)
                      (@lookup _ _ (gmap string string) _ "NEO4J_USER" ∅)))
                (or_opt (arg_password args)
                   (@lookup _ _ (gmap string string) _ "NEO4J_PASSWORD" ∅))
                (or_opt (arg_database args)
                   (@lookup _ _ (gmap string string) _ "NEO4J_DATABASE" ∅)) s)
      as (cfg' & s1 & closed & _ & Hcfg & Hcl & H).
    specialize (Hcfg eq_refl). subst cfg'.
    destruct (close_installed_session _ _ _ Hcl) as (_ & Hc1 & _).
    destruct closed as [[] | e].
    + destruct H as (made & n2 & _ & H). destruct made as [h | e].
      * destruct H as (n3 & verified & _ & ->).
        destruct verified as [[] | e]; simpl.
        -- intros [= <-]. left. reflexivity.
        -- intros Hcfg. right. exact Hcfg.
      * rewrite H. simpl. intros Hcfg. right. exact Hcfg.
    + rewrite H. simpl. rewrite Hc1. intros Hcfg. right. exact Hcfg.
Qed.

End Session.

#[local] Existing Instance toy_lib.

Lemma connect_success_state_witness :
  exists cfg,
    _config (fst (connect (Lib:=toy_lib) ∅ (Some "bolt://a") None None (Some "") toy_initial))
      = Some cfg /\
    database cfg = "neo4j".
Proof.
  destruct (connect_success_state (Lib:=toy_lib) ∅ (Some "bolt://a") None None (Some "")
              toy_initial
              (fst (connect (Lib:=toy_lib) ∅ (Some "bolt://a") None None (Some "")
                      toy_initial)))
    as (h & cfg & _ & Hcfg & _).
  - vm_compute. reflexivity.
  - exists cfg. split; [exact Hcfg |].
    vm_compute in Hcfg. injection Hcfg as <-. reflexivity.
Defined.

Lemma reconnect_closes_previous_driver_witness :
  exists rest,
    calls (fst (connect (Lib:=toy_lib) ∅ (Some "bolt://b") None None None
                  (fst (connect (Lib:=toy_lib) ∅ (Some "bolt://a") None None None
                          toy_initial)))) =
    [CallDriver (Lib:=toy_lib) "bolt://a" "neo4j" "neo4j" (Return "bolt://a");
     CallVerify (Lib:=toy_lib) "bolt://a" (Return tt)]
    ++ [CallClose (Lib:=toy_lib) "bolt://a";
        CallDriver (Lib:=toy_lib) "bolt://b" "neo4j" "neo4j" (Return "bolt://b")]
    ++ rest.
Proof.
  pose proof (reconnect_closes_previous_driver (Lib:=toy_lib) ∅ (Some "bolt://b") None
                None None
                (fst (connect (Lib:=toy_lib) ∅ (Some "bolt://a") None None None
                        toy_initial))
                "bolt://a" eq_refl) as H.
  change (snd (@close_handle toy_lib _ _)) with (@Return string unit tt) in H.
  cbv iota in H.
  destruct H as (mu & mn & mp & made & rest & Hcalls & _).
  exists rest. rewrite Hcalls. vm_compute in Hcalls.
  injection Hcalls as Hu Hn Hp Hm _. subst. reflexivity.
Defined.

Lemma failed_connect_keeps_configuration_witness :
  _config (fst (connect (Lib:=toy_lib) ∅ (Some "bolt://down") None None None toy_initial))
    = None /\
  is_connected (fst (connect (Lib:=toy_lib) ∅ (Some "bolt://down") None None None
                       toy_initial)) = true.
Proof.
  destruct (failed_connect_keeps_configuration (Lib:=toy_lib) ∅ (Some "bolt://down")
              None None None toy_initial
              (fst (connect (Lib:=toy_lib) ∅ (Some "bolt://down") None None None
                      toy_initial))
              (LibError (Lib:=toy_lib) "ServiceUnavailable"))
    as [Hcfg _].
  - vm_compute. reflexivity.
  - split; [exact Hcfg | reflexivity].
Defined.

Lemma get_driver_returns_installed_driver_witness :
  exists h, snd (get_driver (Lib:=toy_lib) ∅ toy_initial) = Return (Some h).
Proof.
  destruct (get_driver_returns_installed_driver (Lib:=toy_lib) ∅ toy_initial
              (fst (get_driver (Lib:=toy_lib) ∅ toy_initial))
              (Some "bolt://localhost:7687"))
    as [(h & Hh & _) _].
  - vm_compute. reflexivity.
  - exists h. rewrite <- Hh. vm_compute. reflexivity.
Defined.

Lemma configuration_implies_driver_witness :
  is_connected
    (fst (connect (Lib:=toy_lib) ∅ (Some "bolt://a") None None None toy_initial)) = true.
Proof.
  destruct (configuration_implies_driver (Lib:=toy_lib) toy_files ∅
              (fst (connect (Lib:=toy_lib) ∅ (Some "bolt://a") None None None toy_initial))
              (reach_connect (Lib:=toy_lib) toy_files ∅ toy_initial (Some "bolt://a") None None None
                 (reach_initial (Lib:=toy_lib) toy_files ∅ 0))
              (new_config "bolt://a" "neo4j" "neo4j" (Some "neo4j")))
    as [Hconn _].
  - vm_compute. reflexivity.
  - exact Hconn.
Defined.

Lemma status_raises_after_unverified_connect_witness :
  snd (neo4j (Lib:=toy_lib) toy_files ∅
         {| arg_uri := None; arg_username := None; arg_password := None;
            arg_database := None; arg_env_file := None;
            arg_close := false; arg_status := true |}
         (fst (connect (Lib:=toy_lib) ∅ (Some "bolt://down") None None None toy_initial)))
  = Some AttributeError.
Proof.
  rewrite (status_raises_after_unverified_connect (Lib:=toy_lib) toy_files ∅
             (Some "bolt://down") None None None 0
             (fst (connect (Lib:=toy_lib) ∅ (Some "bolt://down") None None None
                     toy_initial))
             (LibError (Lib:=toy_lib) "ServiceUnavailable")); reflexivity.
Defined.

Lemma neo4j_magic_ignores_credentials_without_uri_witness :
  neo4j (Lib:=toy_lib) toy_files ∅
    {| arg_uri := None; arg_username := Some "alice"; arg_password := Some "secret";
       arg_database := Some "movies"; arg_env_file := None;
       arg_close := false; arg_status := false |} toy_initial =
  neo4j (Lib:=toy_lib) toy_files ∅ plain_args toy_initial.
Proof.
  apply (neo4j_magic_ignores_credentials_without_uri (Lib:=toy_lib) toy_files ∅
           plain_args _ toy_initial); reflexivity.
Defined.

(** A driver whose [close] raises: [%neo4j --close] raises with it and the
    session stays connected, and a second [connect] raises before it makes a
    driver. *)
Example close_exception_leaves_magic :
  snd (neo4j (Lib:=brittle_lib)
         {| dotenv_installed := false;
            file_exists := fun _ => Return false;
            dotenv_values := fun _ => Return ∅ |} ∅
         {| arg_uri := None; arg_username := None; arg_password := None;
            arg_database := None; arg_env_file := None;
            arg_close := true; arg_status := false |}
         (fst (connect (Lib:=brittle_lib) ∅ (Some "bolt://a") None None None
                 (initial (Lib:=brittle_lib) 0)))) =
    Some (LibError (Lib:=brittle_lib) "SessionExpired") /\
  connect (Lib:=brittle_lib) ∅ (Some "bolt://b") None None None
    (fst (connect (Lib:=brittle_lib) ∅ (Some "bolt://a") None None None
            (initial (Lib:=brittle_lib) 0))) =
  (@Build_Session brittle_lib (Some "bolt://a")
     (Some (new_config "bolt://a" "neo4j" "neo4j" (Some "neo4j"))) 1
     [CallDriver (Lib:=brittle_lib) "bolt://a" "neo4j" "neo4j" (Return "bolt://a");
      CallVerify (Lib:=brittle_lib) "bolt://a" (Return tt);
      CallClose (Lib:=brittle_lib) "bolt://a"],
   Raise (LibError (Lib:=brittle_lib) "SessionExpired")).
Proof. split; vm_compute; reflexivity. Qed.

End Connection_facts.

(** ** The end of [_run_cypher] *)

Section Display_tail_facts.
Context `{DB : Database}.
Context {X : Type}.
Implicit Types (visualize : CypherResult -> outcome (VizExc X) unit).
Implicit Types (user_ns : gmap string (Value)).

Lemma show_each_lookup n pairs : forall i k stmt r,
  pairs !! k = Some (stmt, r) ->
  show_each (X:=X) i n pairs !! (2 * k) = Some (ShowHtml (statement_header (i + k) n stmt)) /\
  show_each (X:=X) i n pairs !! (2 * k + 1) = Some (ShowValue (ResultValue r)).
Proof.
  induction pairs as [| [s0 r0] pairs IH]; intros i k stmt r Hk; [discriminate |].
  destruct k as [| k].
  - injection Hk as -> ->. simpl. rewrite Nat.add_0_r. split; reflexivity.
  - simpl in Hk. destruct (IH (S i) k stmt r Hk) as [H1 H2].
    replace (2 * S k) with (S (S (2 * k))) by lia.
    replace (i + S k) with (S i + k) by lia.
    simpl show_each. split; [exact H1 | exact H2].
Qed.

Lemma show_each_length i n pairs :
  length (show_each (X:=X) i n pairs) = 2 * length pairs.
Proof.
  revert i. induction pairs as [| [s0 r0] pairs IH]; intros i; simpl; [reflexivity |].
  rewrite IH. lia.
Qed.

(** X18.  The end of [_run_cypher] writes to the namespace under the name
    given with [-o] and under no other: every other variable keeps its
    value, and without [-o] the namespace is left as it was. *)
Theorem display_results_touches_only_output visualize dargs query statements results
    user_ns :
  let ns' := fst (fst (display_results visualize dargs query statements results user_ns)) in
  (forall name, arg_output dargs <> Some name -> ns' !! name = user_ns !! name) /\
  (truthy_opt (arg_output dargs) = false -> ns' = user_ns).
Proof.
  assert (Hins : forall v name,
             arg_output dargs <> Some name -> truthy_opt (arg_output dargs) = true ->
             <[default "" (arg_output dargs) := v]> user_ns !! name = user_ns !! name).
  { intros v name Hne Ht. destruct (arg_output dargs) as [o |]; [| discriminate].
    simpl. apply lookup_insert_ne. congruence. }
  unfold display_results.
  destruct results as [| r [| r2 results]].
  - simpl. split; reflexivity.
  - destruct (arg_visualize dargs).
    + destruct (visualize r) as [[] | [msg | e]]; simpl; split; reflexivity.
    + destruct (truthy_opt (arg_output dargs)) eqn:Ht; simpl; split;
        try reflexivity; try discriminate.
      intros name Hne. apply Hins; [assumption | reflexivity || assumption].
  - destruct (last (r :: r2 :: results)); [| simpl; split; reflexivity].
    destruct (truthy_opt (arg_output dargs)) eqn:Ht; simpl; split;
      try reflexivity; try discriminate.
    intros name Hne. apply Hins; [assumption | reflexivity || assumption].
Qed.

(** X19.  With [-o NAME], and unless a single result is visualized, NAME is
    bound to the last result of the batch, or to its data frame with [--df].
    With [--viz] on a single result nothing is stored, [-o] or not. *)
Theorem output_variable_holds_last_result visualize dargs query statements results
    user_ns name last_result :
  arg_output dargs = Some name -> truthy name = true ->
  last results = Some last_result ->
  let ns' := fst (fst (display_results visualize dargs query statements results user_ns)) in
  if arg_visualize dargs && bool_decide (length results = 1) then ns' = user_ns
  else ns' !! name = Some (if arg_as_df dargs then DataFrameValue last_result
                           else ResultValue last_result).
Proof.
  intros Ho Ht Hlast. unfold display_results, output_value.
  destruct results as [| r [| r2 results]]; [discriminate | |].
  - injection Hlast as ->. simpl length. rewrite bool_decide_eq_true_2 by reflexivity.
    rewrite andb_true_r. destruct (arg_visualize dargs).
    + destruct (visualize last_result) as [[] | [msg | e]]; reflexivity.
    + rewrite Ho. simpl. rewrite Ht. simpl. apply lookup_insert_eq.
  - rewrite bool_decide_eq_false_2 by (simpl; lia). rewrite andb_false_r.
    rewrite Hlast, Ho. simpl truthy_opt. rewrite Ht. simpl. apply lookup_insert_eq.
Qed.

(** X20.  When the gateway hands on the results of a batch of two statements
    or more, the end of [_run_cypher] displays, for each statement in the
    order of the split, a header with its position, the number of
    statements and its text, followed by its own result; the results are
    displayed as results, also with [--df], and [--viz] is not used.  With
    [-o] one more block follows, which names the variable and gives the
    number of rows of the last result. *)
Theorem every_statement_gets_header_and_result visualize args dargs query params db own
    allow_write d w' results :
  _run_cypher args query params db own allow_write (fresh d) = (w', Return (Proceed results)) ->
  2 <= length (_split_statements query) ->
  let '(_, shown, exc) :=
    display_results visualize dargs query (_split_statements query) results ∅ in
  exc = None /\
  length results = length (_split_statements query) /\
  length shown = 2 * length results + (if truthy_opt (arg_output dargs) then 1 else 0) /\
  (forall i stmt, _split_statements query !! i = Some stmt ->
     exists r,
       results !! i = Some r /\
       shown !! (2 * i) =
         Some (ShowHtml (statement_header (S i) (length (_split_statements query)) stmt)) /\
       shown !! (2 * i + 1) = Some (ShowValue (ResultValue r))) /\
  (truthy_opt (arg_output dargs) = true ->
   exists last_result,
     last results = Some last_result /\
     shown !! (2 * length results) =
       Some (ShowHtml (LastStoredHtml (default "" (arg_output dargs))
                         (length (records last_result))))).
Proof.
  intros Hrun Hlen.
  assert (Hne : _split_statements query <> []) by (intros He; rewrite He in Hlen; simpl in Hlen; lia).
  destruct (run_cypher_shape args query params db own allow_write d Hne)
    as (d' & evs & fl & Hrun' & Hshape).
  rewrite Hrun in Hrun'. injection Hrun' as _ Hfl.
  symmetry in Hfl. apply finally_close_Return in Hfl.
  assert (Hres : length results = length (_split_statements query)).
  { destruct Hshape as [| | probes responses Hadm Hl]; try discriminate.
    injection Hfl as <-. rewrite length_map. exact Hl. }
  unfold display_results.
  destruct results as [| r [| r2 results]]; [simpl in Hres; lia | simpl in Hres; lia |].
  set (rs := r :: r2 :: results) in *.
  assert (Hshown : forall i stmt, _split_statements query !! i = Some stmt ->
             exists r0, rs !! i = Some r0 /\
               show_each (X:=X) 1 (length rs) (zip (_split_statements query) rs) !! (2 * i) =
                 Some (ShowHtml (statement_header (S i)
                                   (length (_split_statements query)) stmt)) /\
               show_each (X:=X) 1 (length rs) (zip (_split_statements query) rs)
                 !! (2 * i + 1) = Some (ShowValue (ResultValue r0))).
  { intros i stmt Hi.
    destruct (lookup_lt_is_Some_2 rs i) as [r0 Hr0].
    { rewrite Hres. eapply lookup_lt_Some. exact Hi. }
    exists r0. split; [exact Hr0 |].
    assert (Hz : zip (_split_statements query) rs !! i = Some (stmt, r0)).
    { apply lookup_zip_with_Some. exists stmt, r0. split_and!; [reflexivity | exact Hi | exact Hr0]. }
    destruct (show_each_lookup (length rs) _ 1 i stmt r0 Hz) as [H1 H2].
    rewrite Hres in *. split; [exact H1 | exact H2]. }
  assert (Hzl : length (zip (_split_statements query) rs) = length rs).
  { rewrite length_zip_with_r_eq; [reflexivity | congruence]. }
  destruct (last rs) as [lr |] eqn:Hlast; [| apply last_None in Hlast; discriminate Hlast].
  destruct (truthy_opt (arg_output dargs)).
  - split_and!; [reflexivity | exact Hres | | |].
    + rewrite length_app, show_each_length, Hzl. simpl. lia.
    + intros i stmt Hi. destruct (Hshown i stmt Hi) as (r0 & Hr0 & H1 & H2).
      exists r0. split_and!; [exact Hr0 | |].
      * rewrite lookup_app_l; [exact H1 |].
        eapply lookup_lt_Some. exact H1.
      * rewrite lookup_app_l; [exact H2 |].
        eapply lookup_lt_Some. exact H2.
    + intros _. exists lr. split; [reflexivity |].
      rewrite lookup_app_r by (rewrite show_each_length, Hzl; lia).
      rewrite show_each_length, Hzl, Nat.sub_diag. reflexivity.
  - split_and!; [reflexivity | exact Hres | | | discriminate].
    + rewrite show_each_length, Hzl. lia.
    + exact Hshown.
Qed.

Lemma run_and_display_returned visualize args dargs query params db own allow_write
    user_ns w w1 d0 :
  _run_cypher args query params db own allow_write w =
    (w1, finally_close own d0 (Return Returned)) ->
  run_and_display visualize args dargs query params db own allow_write user_ns w =
  (w1, (user_ns, [],
        if own then
          match snd (close d0) with
          | Return _ => None
          | Raise e => Some (Escaped e)
          end
        else None)).
Proof.
  intros H. unfold run_and_display. rewrite H. unfold finally_close.
  destruct own; [destruct (snd (close d0)) as [[] | e] |]; reflexivity.
Qed.

Lemma run_and_display_world visualize args dargs query params db own allow_write
    user_ns w :
  fst (run_and_display visualize args dargs query params db own allow_write user_ns w) =
  fst (_run_cypher args query params db own allow_write w).
Proof.
  unfold run_and_display.
  destruct (_run_cypher args query params db own allow_write w) as [w1 [[| rs] | e]];
    reflexivity.
Qed.

(** X21.  A batch that is blocked, or in which a statement raises, stores
    nothing and displays no result: [_run_cypher] as a whole leaves the
    namespace as it was.  The call returns, unless the [close] of its own
    driver in the [finally] clause raises: then that exception leaves it. *)
Theorem failed_or_blocked_batch_stores_nothing visualize args dargs query params db own
    allow_write d user_ns w' ns' shown exc ev :
  run_and_display visualize args dargs query params db own allow_write user_ns (fresh d) =
    (w', (ns', shown, exc)) ->
  ev ∈ trace w' ->
  is_write_blocked_block ev = true \/ is_failed_execution ev = true ->
  ns' = user_ns /\ shown = [] /\
  exists d0,
    driver w' = closed own d0 /\
    exc = if own then
            match snd (close d0) with
            | Return _ => None
            | Raise e => Some (Escaped e)
            end
          else None.
Proof.
  intros Hd Hev Hkind.
  destruct (decide (_split_statements query = [])) as [He | Hne].
  - rewrite (run_and_display_returned _ _ _ _ _ _ _ _ _ _ _ _
               (run_cypher_empty _ _ _ _ _ _ _ He)) in Hd.
    injection Hd as <- <- <- <-.
    split_and!; [reflexivity | reflexivity |]. exists d. split; reflexivity.
  - destruct (run_cypher_shape args query params db own allow_write d Hne)
      as (d' & evs & fl & Hrun & Hshape).
    destruct Hshape as [answers Hpre Hlen Hgate
                       | probes k stmt e0 responses Hadm Hk Hlen
                       | probes responses Hadm Hlen].
    + rewrite (run_and_display_returned _ _ _ _ _ _ _ _ _ _ _ _ Hrun) in Hd.
      injection Hd as <- <- <- <-.
      split_and!; [reflexivity | reflexivity |]. exists d'. split; reflexivity.
    + rewrite (run_and_display_returned _ _ _ _ _ _ _ _ _ _ _ _ Hrun) in Hd.
      injection Hd as <- <- <- <-.
      split_and!; [reflexivity | reflexivity |]. exists d'. split; reflexivity.
    + exfalso.
      assert (Hw : trace w' =
                   probes ++ zip_with (executed params db) (_split_statements query)
                               responses ++ closing own).
      { pose proof (run_and_display_world visualize args dargs query params db own
                      allow_write user_ns (fresh d)) as Hfst.
        rewrite Hd, Hrun in Hfst. simpl in Hfst. subst w'. reflexivity. }
      rewrite Hw in Hev.
      assert (Hok : is_write_blocked_block ev = false /\ is_failed_execution ev = false).
      { elem_cases Hev.
        - apply (probes_are_explain _ _ _ _ _ Hadm) in Hev.
          destruct ev as [q [pp |] dbx a | | b]; try discriminate Hev. split; reflexivity.
        - apply executed_are_answered in Hev as (? & ? & ->). split; reflexivity.
        - apply elem_of_closing in Hev. subst ev. split; reflexivity. }
      destruct Hok as [H1 H2]. destruct Hkind; congruence.
Qed.

(** X22.  Two exceptions only can leave [_run_cypher] from the split of the
    query on: one that [result.visualize()] raises under [--viz] and that is
    not an [ImportError], and one that the [close] of the call's own driver
    raises.  No exception of [execute_query] leaves it, and [results[-1]]
    never raises [IndexError].  ([display] and the making of a data frame
    are taken not to raise.) *)
Theorem run_cypher_exceptions visualize args dargs query params db own allow_write d
    user_ns exc :
  snd (snd (run_and_display visualize args dargs query params db own allow_write user_ns
              (fresh d))) = Some exc ->
  (arg_visualize dargs = true /\
   exists r e, visualize r = Raise (VizOther e) /\ exc = VizRaised e) \/
  (own = true /\
   exists d0 e,
     driver (fst (run_and_display visualize args dargs query params db own allow_write
                    user_ns (fresh d))) = closed own d0 /\
     snd (close d0) = Raise e /\ exc = Escaped e).
Proof.
  assert (Hret : forall d0,
             _run_cypher args query params db own allow_write (fresh d) =
               ({| driver := closed own d0;
                   trace := trace (fst (_run_cypher args query params db own allow_write
                                          (fresh d))) |},
                finally_close own d0 (Return Returned)) ->
             snd (snd (run_and_display visualize args dargs query params db own
                         allow_write user_ns (fresh d))) = Some exc ->
             own = true /\
             exists d0 e,
               driver (fst (run_and_display visualize args dargs query params db own
                              allow_write user_ns (fresh d))) = closed own d0 /\
               snd (close d0) = Raise e /\ exc = Escaped e).
  { intros d0 Hrun. rewrite (run_and_display_returned _ _ _ _ _ _ _ _ _ _ _ _ Hrun).
    simpl. destruct own; [| discriminate].
    destruct (snd (close d0)) as [[] | e] eqn:Hc; [discriminate |].
    intros [= <-]. split; [reflexivity |]. exists d0, e. split_and!; auto. }
  destruct (decide (_split_statements query = [])) as [He | Hne].
  - intros Hexc. right. apply (Hret d); [| exact Hexc].
    rewrite (run_cypher_empty _ _ _ _ _ _ _ He). reflexivity.
  - destruct (run_cypher_shape args query params db own allow_write d Hne)
      as (d' & evs & fl & Hrun & Hshape).
    destruct Hshape as [answers Hpre Hlen Hgate
                       | probes k stmt e0 responses Hadm Hk Hlen
                       | probes responses Hadm Hlen].
    + intros Hexc. right. apply (Hret d'); [| exact Hexc]. rewrite Hrun. reflexivity.
    + intros Hexc. right. apply (Hret d'); [| exact Hexc]. rewrite Hrun. reflexivity.
    + clear Hret. unfold run_and_display. rewrite Hrun. unfold finally_close.
      assert (Hshow : snd (display_results visualize dargs query (_split_statements query)
                             (map to_result responses) user_ns) = Some exc ->
                      arg_visualize dargs = true /\
                      exists r e, visualize r = Raise (VizOther e) /\ exc = VizRaised e).
      { unfold display_results.
        destruct (map to_result responses) as [| r [| r2 results]] eqn:Hmap.
        - apply (f_equal length) in Hmap. rewrite length_map, Hlen in Hmap.
          destruct (_split_statements query); [congruence | discriminate].
        - destruct (arg_visualize dargs); [| destruct (truthy_opt _); discriminate].
          destruct (visualize r) as [[] | [msg | e]] eqn:Hviz; try discriminate.
          intros [= <-]. split; [reflexivity |]. eauto.
        - destruct (last (r :: r2 :: results)) eqn:Hlast;
            [| apply last_None in Hlast; discriminate Hlast].
          destruct (truthy_opt _); discriminate. }
      destruct own; [destruct (snd (close d')) as [[] | e] eqn:Hc |]; simpl.
      * intros H. left. apply Hshow. exact H.
      * intros [= <-]. right. split; [reflexivity |]. exists d', e.
        split_and!; auto.
      * intros H. left. apply Hshow. exact H.
Qed.

End Display_tail_facts.

Lemma output_variable_holds_last_result_witness :
  fst (fst (display_results (DB:=Toy.toy) (X:=unit) (fun _ => Return tt)
              {| arg_visualize := false; arg_as_df := true; arg_output := Some "df" |}
              "A" ["A"] [to_result (DB:=Toy.toy) (["A"], Some "r", ["n"])] ∅))
    !! "df" =
  Some (DataFrameValue (to_result (DB:=Toy.toy) (["A"], Some "r", ["n"]))).
Proof.
  apply (output_variable_holds_last_result (DB:=Toy.toy) (X:=unit) (fun _ => Return tt)
           {| arg_visualize := false; arg_as_df := true; arg_output := Some "df" |}
           "A" ["A"] [to_result (DB:=Toy.toy) (["A"], Some "r", ["n"])] ∅ "df"
           (to_result (DB:=Toy.toy) (["A"], Some "r", ["n"]))); reflexivity.
Defined.

Lemma every_statement_gets_header_and_result_witness :
  exists r,
    snd (fst (display_results (DB:=Toy.toy) (X:=unit) (fun _ => Return tt)
                {| arg_visualize := true; arg_as_df := true; arg_output := None |}
                Toy.read_batch (_split_statements Toy.read_batch)
                [to_result (DB:=Toy.toy) (["MATCH (m) RETURN m"], Some "r", ["n"]);
                 to_result (DB:=Toy.toy) (["MATCH (p) RETURN p"], Some "r", ["n"])] ∅))
      !! 3 = Some (ShowValue (ResultValue r)).
Proof.
  pose proof (every_statement_gets_header_and_result (DB:=Toy.toy) (X:=unit)
                (fun _ => Return tt) Toy.probing
                {| arg_visualize := true; arg_as_df := true; arg_output := None |}
                Toy.read_batch [] "neo4j" true false 10
                (fst (Toy.run Toy.probing Toy.read_batch false 10))
                [to_result (DB:=Toy.toy) (["MATCH (m) RETURN m"], Some "r", ["n"]);
                 to_result (DB:=Toy.toy) (["MATCH (p) RETURN p"], Some "r", ["n"])]) as H.
  destruct (display_results _ _ _ _ _ _) as [[ns shown] exc] eqn:Hd.
  destruct H as (_ & _ & _ & H & _).
  - vm_compute. reflexivity.
  - vm_compute. lia.
  - destruct (H 1 "MATCH (p) RETURN p") as (r & _ & _ & Hr).
    + vm_compute. reflexivity.
    + exists r. exact Hr.
Defined.

Lemma failed_or_blocked_batch_stores_nothing_witness :
  snd (run_and_display (DB:=Toy.toy) (X:=unit) (fun _ => Return tt) Toy.probing
         {| arg_visualize := false; arg_as_df := false; arg_output := Some "out" |}
         Toy.schema_batch [] "neo4j" true false ∅ (Toy.start 10)) = (∅, [], None).
Proof.
  destruct (run_and_display (DB:=Toy.toy) (X:=unit) (fun _ => Return tt) Toy.probing
              {| arg_visualize := false; arg_as_df := false; arg_output := Some "out" |}
              Toy.schema_batch [] "neo4j" true false ∅ (Toy.start 10))
    as [w' [[ns' shown] exc]] eqn:Hr.
  destruct (failed_or_blocked_batch_stores_nothing (DB:=Toy.toy) (X:=unit)
              (fun _ => Return tt) Toy.probing
              {| arg_visualize := false; arg_as_df := false; arg_output := Some "out" |}
              Toy.schema_batch [] "neo4j" true false 10 ∅ w' ns' shown exc
              (EvDisplay (WriteBlockedHtml "schema" Toy.schema_batch)))
    as (-> & -> & d0 & _ & ->).
  - exact Hr.
  - vm_compute in Hr. injection Hr as <- _. vm_compute.
    apply list_elem_of_further, list_elem_of_further, list_elem_of_here.
  - left. reflexivity.
  - reflexivity.
Defined.

Lemma run_cypher_exceptions_witness :
  exists d0,
    snd (close (Database:=Toy.brittle) d0) = Raise "SessionExpired" /\
    snd (snd (run_and_display (DB:=Toy.brittle) (X:=unit) (fun _ => Return tt)
                Toy.no_probing
                {| arg_visualize := false; arg_as_df := false; arg_output := None |}
                "MATCH (n) RETURN n" [] "neo4j" true false ∅
                (fresh (DB:=Toy.brittle) 10))) =
      Some (Escaped (DB:=Toy.brittle) "SessionExpired").
Proof.
  destruct (run_cypher_exceptions (DB:=Toy.brittle) (X:=unit)
              (fun _ => Return tt) Toy.no_probing
              {| arg_visualize := false; arg_as_df := false; arg_output := None |}
              "MATCH (n) RETURN n" [] "neo4j" true false 10 ∅
              (Escaped (DB:=Toy.brittle) "SessionExpired"))
    as [[Hviz _] | (_ & d0 & e & _ & Hclose & Hexc)].
  - vm_compute. reflexivity.
  - discriminate Hviz.
  - injection Hexc as <-. exists d0. split; [exact Hclose | vm_compute; reflexivity].
Defined.

(** The two exceptions at work: a rendering that fails, and a driver of the
    call's own whose [close] raises after the statement was executed. *)
Example visualize_exception_leaves :
  snd (snd (run_and_display (DB:=Toy.toy) (X:=string)
              (fun _ => Raise (VizOther "render failed")) Toy.probing
              {| arg_visualize := true; arg_as_df := false; arg_output := None |}
              "MATCH (n) RETURN n" [] "neo4j" true false ∅ (Toy.start 10))) =
  Some (VizRaised (DB:=Toy.toy) "render failed").
Proof. vm_compute. reflexivity. Qed.

Example close_exception_leaves :
  Toy.brittle_run Toy.no_probing "MATCH (n) RETURN n" true false 10 =
  (@Build_World Toy.brittle 9
     [executed (DB:=Toy.brittle) [] "neo4j" "MATCH (n) RETURN n"
        (["MATCH (n) RETURN n"], Some "r", ["n"]);
      EvClose (DB:=Toy.brittle)],
   Raise "SessionExpired") /\
  snd (Toy.brittle_run Toy.no_probing "MATCH (n) RETURN n" false false 10) =
  Return (Proceed [to_result (DB:=Toy.brittle)
                     (["MATCH (n) RETURN n"], Some "r", ["n"])]).
Proof. split; vm_compute; reflexivity. Qed.

(** ** [CypherResult.to_graph] *)

Module Graph_facts.
Import Graph.

Section Graph.
Context `{Py : PyValues}.
Implicit Types (seen : list (Z * VizNode)) (rels : list VizRel).
Implicit Types (st : list (Z * VizNode) * list VizRel).

Lemma grows_refl st : grows st st.
Proof. split; auto. Qed.

Lemma grows_trans st1 st2 st3 : grows st1 st2 -> grows st2 st3 -> grows st1 st3.
Proof. intros [H1 H2] [H3 H4]. split; auto. Qed.

Lemma see_node_cases node seen :
  (_node_num_id node ∈ map fst seen /\ see_node node seen = seen) \/
  ((_node_num_id node ∉ map fst seen) /\
   exists cap, see_node node seen =
     seen ++ [(_node_num_id node, make_node (_node_num_id node) cap node)]).
Proof.
  unfold see_node, seen_has. case_bool_decide as Hin; [left | right]; eauto.
Qed.

Lemma see_endpoint_cases node seen :
  (_node_num_id node ∈ map fst seen /\ see_endpoint node seen = seen) \/
  ((_node_num_id node ∉ map fst seen) /\
   exists cap, see_endpoint node seen =
     seen ++ [(_node_num_id node, make_node (_node_num_id node) cap node)]).
Proof.
  unfold see_endpoint, seen_has. case_bool_decide as Hin; [left | right]; eauto.
Qed.

Lemma add_step_ok seen rels nid vn :
  graph_ok (seen, rels) -> nid ∉ map fst seen -> id vn = nid ->
  graph_ok (seen ++ [(nid, vn)], rels) /\
  grows (seen, rels) (seen ++ [(nid, vn)], rels) /\
  nid ∈ map fst (seen ++ [(nid, vn)]).
Proof.
  intros (Hnd & Hid & Hrel) Hfresh Hvn. simpl in *.
  assert (Hmono : forall x, x ∈ map fst seen -> x ∈ map fst (seen ++ [(nid, vn)])).
  { intros x Hx. rewrite map_app. apply elem_of_app. left. exact Hx. }
  split_and!.
  - split_and!; simpl.
    + rewrite map_app. apply NoDup_app. split_and!; [exact Hnd | | apply NoDup_singleton].
      intros x Hx Hx'. apply list_elem_of_singleton in Hx'. simpl in Hx'. subst x.
      contradiction.
    + intros n0 node H. apply elem_of_app in H as [H | H]; [exact (Hid _ _ H) |].
      apply list_elem_of_singleton in H. injection H as -> ->. exact Hvn.
    + intros rel Hr. destruct (Hrel rel Hr) as [Hs Ht]. split; apply Hmono; assumption.
  - split; simpl; [exact Hmono | auto].
  - rewrite map_app. apply elem_of_app. right. left.
Qed.

Lemma see_ok (see : NeoNode -> list (Z * VizNode) -> list (Z * VizNode)) node seen rels :
  ((_node_num_id node ∈ map fst seen /\ see node seen = seen) \/
   ((_node_num_id node ∉ map fst seen) /\
    exists cap, see node seen =
      seen ++ [(_node_num_id node, make_node (_node_num_id node) cap node)])) ->
  graph_ok (seen, rels) ->
  graph_ok (see node seen, rels) /\
  grows (seen, rels) (see node seen, rels) /\
  _node_num_id node ∈ map fst (see node seen).
Proof.
  intros [[Hin ->] | [Hfresh (cap & ->)]] Hok.
  - split_and!; [exact Hok | apply grows_refl | exact Hin].
  - apply add_step_ok; [exact Hok | exact Hfresh | reflexivity].
Qed.

Lemma visit_ok val st :
  graph_ok st ->
  graph_ok (visit val st) /\ grows st (visit val st) /\
  match val with
  | VNode n => _node_num_id n ∈ map fst (visit val st).1
  | VRel r =>
      {| source := _node_num_id (start_node r); target := _node_num_id (end_node r);
         rel_caption := rel_type r |} ∈ (visit val st).2
  | VPlain => True
  end.
Proof.
  destruct st as [seen rels]. intros Hok. destruct val as [n | r |]; simpl.
  - destruct (see_ok see_node n seen rels (see_node_cases n seen) Hok) as (H1 & H2 & H3).
    split_and!; assumption.
  - destruct (see_ok see_endpoint (start_node r) seen rels
                (see_endpoint_cases _ seen) Hok) as (H1 & H2 & H3).
    destruct (see_ok see_endpoint (end_node r) _ rels
                (see_endpoint_cases _ _) H1) as (H4 & H5 & H6).
    pose proof (grows_trans _ _ _ H2 H5) as [Hids Hrels]. simpl in *.
    destruct H4 as (Hnd & Hid & Hrel). split_and!.
    + split_and!; simpl; [exact Hnd | exact Hid |].
      intros rel Hr. apply elem_of_app in Hr as [Hr | Hr]; [exact (Hrel rel Hr) |].
      apply list_elem_of_singleton in Hr. subst rel. simpl. split; [| exact H6].
      destruct H5 as [H5 _]. apply H5. exact H3.
    + split; simpl; [exact Hids |]. intros rel Hr. apply elem_of_app. left. exact Hr.
    + apply elem_of_app. right. left.
  - split_and!; [exact Hok | apply grows_refl | exact I].
Qed.

Lemma covered_grows val st st' : grows st st' -> covered val st -> covered val st'.
Proof. intros [H1 H2]. destruct val; simpl; auto. Qed.

Lemma visit_keys_ok record keys : forall st st',
  visit_keys record keys st = Return st' ->
  graph_ok st ->
  graph_ok st' /\ grows st st' /\
  forall key val, key ∈ keys -> record !! key = Some val -> covered val st'.
Proof.
  induction keys as [| key keys IH]; intros st st' Hrun Hok; simpl in Hrun.
  - injection Hrun as <-. split_and!; [exact Hok | apply grows_refl |].
    intros key val Hk. apply elem_of_nil in Hk. contradiction.
  - destruct (record !! key) as [val |] eqn:Hval; [| discriminate].
    destruct (visit_ok val st Hok) as (H1 & H2 & H3).
    destruct (IH _ _ Hrun H1) as (H4 & H5 & H6).
    split_and!; [exact H4 | exact (grows_trans _ _ _ H2 H5) |].
    intros k v Hk Hv. apply elem_of_cons in Hk as [-> | Hk]; [| exact (H6 k v Hk Hv)].
    rewrite Hval in Hv. injection Hv as <-.
    apply (covered_grows val _ _ H5). destruct val; exact H3.
Qed.

Lemma visit_records_ok keys records : forall st st',
  visit_records records keys st = Return st' ->
  graph_ok st ->
  graph_ok st' /\ grows st st' /\
  forall record key val,
    record ∈ records -> key ∈ keys -> record !! key = Some val -> covered val st'.
Proof.
  induction records as [| record records IH]; intros st st' Hrun Hok; simpl in Hrun.
  - injection Hrun as <-. split_and!; [exact Hok | apply grows_refl |].
    intros record key val Hr. apply elem_of_nil in Hr. contradiction.
  - destruct (visit_keys record keys st) as [st1 | e] eqn:Hkeys; [| discriminate].
    destruct (visit_keys_ok record keys _ _ Hkeys Hok) as (H1 & H2 & H3).
    destruct (IH _ _ Hrun H1) as (H4 & H5 & H6).
    split_and!; [exact H4 | exact (grows_trans _ _ _ H2 H5) |].
    intros r k v Hr Hk Hv. apply elem_of_cons in Hr as [-> | Hr].
    + apply (covered_grows v _ _ H5). exact (H3 k v Hk Hv).
    + exact (H6 r k v Hr Hk Hv).
Qed.

Lemma ids_of_seen seen :
  (forall nid node, (nid, node) ∈ seen -> id node = nid) ->
  map id (map snd seen) = map fst seen.
Proof.
  induction seen as [| [nid node] seen IH]; intros Hid; [reflexivity |].
  simpl. rewrite (Hid nid node ltac:(left)). f_equal. apply IH.
  intros n0 v H. apply Hid. right. exact H.
Qed.

Lemma to_graph_state has keys records g :
  to_graph has keys records = Return g ->
  exists seen rels,
    visit_records records keys ([], []) = Return (seen, rels) /\
    nodes g = map snd seen /\ relationships g = rels /\
    map id (nodes g) = map fst seen /\ graph_ok (seen, rels).
Proof.
  unfold to_graph. destruct has; [| discriminate]. simpl.
  destruct (visit_records records keys ([], [])) as [[seen rels] | e] eqn:Hrun;
    [| discriminate].
  intros [= <-]. exists seen, rels.
  assert (Hinit : graph_ok (([] : list (Z * VizNode)), ([] : list VizRel))).
  { split_and!; simpl.
    - constructor.
    - intros ? ? H. apply elem_of_nil in H. contradiction.
    - intros ? H. apply elem_of_nil in H. contradiction. }
  destruct (visit_records_ok keys records _ _ Hrun Hinit) as (Hok & _).
  split_and!; [reflexivity | reflexivity | reflexivity | | exact Hok].
  simpl. apply ids_of_seen. apply Hok.
Qed.

(** X23.  The graph that [to_graph] returns is well formed: no two of its
    nodes have the same id, and the source and the target of each of its
    relationships are ids of its nodes. *)
Theorem to_graph_is_well_formed has keys records g :
  to_graph has keys records = Return g ->
  NoDup (map id (nodes g)) /\
  forall rel, rel ∈ relationships g ->
    source rel ∈ map id (nodes g) /\ target rel ∈ map id (nodes g).
Proof.
  intros Hg. destruct (to_graph_state _ _ _ _ Hg) as (seen & rels & _ & _ & Hr & Hids & Hok).
  rewrite Hids, Hr. destruct Hok as (Hnd & _ & Hrel). split; [exact Hnd | exact Hrel].
Qed.

(** X24.  The graph leaves out nothing of the result: every node that is the
    value of a column in a record has its id among the nodes, and every
    relationship that is such a value is among the relationships, with the
    ids of its two ends and its type as caption. *)
Theorem to_graph_covers_the_result has keys records g record key :
  to_graph has keys records = Return g ->
  record ∈ records -> key ∈ keys ->
  match record !! key with
  | Some (VNode n) => _node_num_id n ∈ map id (nodes g)
  | Some (VRel r) =>
      {| source := _node_num_id (start_node r); target := _node_num_id (end_node r);
         rel_caption := rel_type r |} ∈ relationships g
  | Some VPlain => True
  | None => False
  end.
Proof.
  intros Hg Hrec Hkey.
  destruct (to_graph_state _ _ _ _ Hg) as (seen & rels & Hrun & _ & Hr & Hids & Hok).
  assert (Hinit : graph_ok (([] : list (Z * VizNode)), ([] : list VizRel))).
  { split_and!; simpl.
    - constructor.
    - intros ? ? H. apply elem_of_nil in H. contradiction.
    - intros ? H. apply elem_of_nil in H. contradiction. }
  destruct (visit_records_ok keys records _ _ Hrun Hinit) as (_ & _ & Hcov).
  destruct (record !! key) as [val |] eqn:Hval.
  - specialize (Hcov record key val Hrec Hkey Hval). rewrite Hids, Hr.
    destruct val; exact Hcov.
  - clear Hcov Hok Hids Hr Hg. revert Hrun. generalize (([] : list (Z * VizNode)), ([] : list VizRel)).
    induction records as [| r0 records IH]; intros st Hrun;
      [apply elem_of_nil in Hrec; contradiction |].
    simpl in Hrun.
    destruct (visit_keys r0 keys st) as [st1 | e] eqn:Hkeys; [| discriminate].
    apply elem_of_cons in Hrec as [<- | Hrec]; [| exact (IH Hrec st1 Hrun)].
    clear Hrun IH. revert st Hkeys.
    induction keys as [| k keys IHk]; intros st Hkeys;
      [apply elem_of_nil in Hkey; contradiction |].
    simpl in Hkeys. apply elem_of_cons in Hkey as [<- | Hkey].
    + rewrite Hval in Hkeys. discriminate.
    + destruct (record !! k); [| discriminate]. exact (IHk Hkey _ Hkeys).
Qed.

End Graph.

#[local] Existing Instance toy_values.

Lemma to_graph_is_well_formed_witness :
  exists g,
    to_graph (Py:=toy_values) true ["p"; "r"]
      [<["p" := VNode alice]> (<["r" := VRel acted_in]> ∅);
       <["p" := VNode matrix]> (<["r" := VPlain]> ∅)] = Return g /\
    NoDup (map id (nodes g)).
Proof.
  destruct (to_graph (Py:=toy_values) true ["p"; "r"]
              [<["p" := VNode alice]> (<["r" := VRel acted_in]> ∅);
               <["p" := VNode matrix]> (<["r" := VPlain]> ∅)]) as [g | e] eqn:Hg.
  - exists g. split; [reflexivity |].
    apply (to_graph_is_well_formed (Py:=toy_values) _ _ _ g Hg).
  - vm_compute in Hg. discriminate Hg.
Defined.

Lemma to_graph_covers_the_result_witness :
  exists g,
    to_graph (Py:=toy_values) true ["r"] [<["r" := VRel acted_in]> ∅] = Return g /\
    {| source := 3; target := 4; rel_caption := "ACTED_IN" |} ∈ relationships g.
Proof.
  destruct (to_graph (Py:=toy_values) true ["r"] [<["r" := VRel acted_in]> ∅])
    as [g | e] eqn:Hg.
  - exists g. split; [reflexivity |].
    pose proof (to_graph_covers_the_result (Py:=toy_values) true ["r"]
                  [<["r" := VRel acted_in]> ∅] g (<["r" := VRel acted_in]> ∅) "r" Hg
                  ltac:(left) ltac:(left)) as H.
    rewrite lookup_insert_eq in H. exact H.
  - vm_compute in Hg. discriminate Hg.
Defined.

End Graph_facts.

(** ** [result.py]: the HTML of a result, and plain values *)

(** X25.  The table of a result never holds more than 500 rows: it holds all
    the records when there are 500 or fewer, and the first 500 otherwise.
    The line under it gives the number of all the records, says that the
    table was cut exactly when it was, and writes 'row' without 's' for one
    record only. *)
Theorem repr_html_table_is_bounded (R : Type) (r0 : R) (records : list R)
    (counters : Counters) (available consumed : Z) :
  exists rows plural truncated,
    _repr_html_ (r0 :: records) counters available consumed =
      TableHtml rows (S (length records)) plural truncated available consumed /\
    rows = take 500 (r0 :: records) /\
    length rows = Nat.min (S (length records)) 500 /\
    (truncated = true <-> length rows < S (length records)) /\
    (plural = false <-> records = []).
Proof.
  eexists _, _, _. split; [reflexivity |]. split; [reflexivity |].
  assert (Hlen : length (take 500 (r0 :: records)) = Nat.min (S (length records)) 500).
  { rewrite length_take. simpl length. lia. }
  split_and!.
  - exact Hlen.
  - rewrite Hlen. simpl length. rewrite Nat.ltb_lt. lia.
  - simpl length. rewrite negb_false_iff, Nat.eqb_eq. destruct records; simpl; split;
      (reflexivity || discriminate || lia).
Qed.

Lemma filter_is_nil {B : Type} (P : B -> Prop) `{!forall x, Decision (P x)} (l : list B) :
  filter P l = [] <-> Forall (fun x => ~ P x) l.
Proof.
  induction l as [| x l IH]; [split; constructor |].
  rewrite filter_cons, Forall_cons. destruct (decide (P x)) as [Hx | Hx].
  - split; [discriminate | intros [Hc _]; contradiction].
  - rewrite IH. tauto.
Qed.

(** X26.  A result without records is displayed as a write result exactly
    when one of its seven counters is not zero; the rows are then the
    counters that are not zero, in the order of the dictionary, and no row
    shows a zero. *)
Theorem repr_html_of_empty_result (R : Type) (counters : Counters)
    (available consumed : Z) :
  let active := filter (fun kv => kv.2 <> 0%Z) (counters_dict counters) in
  (_repr_html_ (R:=R) [] counters available consumed = NoResultsHtml <->
     nodes_created counters = 0%Z /\ nodes_deleted counters = 0%Z /\
     relationships_created counters = 0%Z /\ relationships_deleted counters = 0%Z /\
     properties_set counters = 0%Z /\ labels_added counters = 0%Z /\
     labels_removed counters = 0%Z) /\
  (_repr_html_ (R:=R) [] counters available consumed <> NoResultsHtml ->
     _repr_html_ (R:=R) [] counters available consumed =
       WriteResultHtml (map (fun kv => (html_escape kv.1, kv.2)) active) /\
     active `sublist_of` counters_dict counters /\
     forall kv, kv ∈ active -> kv.2 <> 0%Z).
Proof.
  intros active.
  assert (Hnil : active = [] <->
            nodes_created counters = 0%Z /\ nodes_deleted counters = 0%Z /\
            relationships_created counters = 0%Z /\ relationships_deleted counters = 0%Z /\
            properties_set counters = 0%Z /\ labels_added counters = 0%Z /\
            labels_removed counters = 0%Z).
  { subst active. unfold counters_dict. rewrite filter_is_nil, !Forall_cons, Forall_nil.
    simpl. split.
    - intros (H1 & H2 & H3 & H4 & H5 & H6 & H7 & _).
      split_and!; apply dec_stable; assumption.
    - intros (H1 & H2 & H3 & H4 & H5 & H6 & H7). split_and!; try exact I; auto. }
  unfold _repr_html_. fold active. split.
  - rewrite <- Hnil. destruct active; split; (reflexivity || discriminate).
  - intros Hne. destruct active as [| kv rest] eqn:Ha; [contradiction |].
    split_and!; [reflexivity | |].
    + rewrite <- Ha. subst active. apply sublist_filter.
    + intros kv0 Hkv. rewrite <- Ha in Hkv. subst active.
      apply list_elem_of_filter in Hkv as [Hkv _]. exact Hkv.
Qed.

Lemma repr_html_of_empty_result_witness :
  _repr_html_ (R:=unit) []
    {| nodes_created := 2; nodes_deleted := 0; relationships_created := 0;
       relationships_deleted := 0; properties_set := 3; labels_added := 0;
       labels_removed := 0 |} 1 2 =
  WriteResultHtml [("nodes_created", 2%Z); ("properties_set", 3%Z)].
Proof.
  destruct (repr_html_of_empty_result unit
              {| nodes_created := 2; nodes_deleted := 0; relationships_created := 0;
                 relationships_deleted := 0; properties_set := 3; labels_added := 0;
                 labels_removed := 0 |} 1 2) as [_ H].
  destruct H as (H & _); [discriminate |]. rewrite H. vm_compute. reflexivity.
Defined.

Section Plain_values.
Context {A : Type}.

(** Induction over a value and the values inside it. *)
Lemma PyVal_nested_ind (P : PyVal A -> Prop) :
  (forall a, P (PScalar a)) ->
  (forall items, Forall P items -> P (PList items)) ->
  (forall items, Forall (fun kv => P kv.2) items -> P (PDict items)) ->
  (forall props, Forall (fun kv => P kv.2) props -> P (PNode props)) ->
  (forall props, Forall (fun kv => P kv.2) props -> P (PRel props)) ->
  (forall rels, Forall P rels -> P (PPath rels)) ->
  forall v, P v.
Proof.
  intros Hs Hl Hd Hn Hr Hp.
  fix IH 1. intros [a | items | items | props | props | rels].
  - apply Hs.
  - apply Hl. induction items as [| x items IHi]; constructor; [apply IH | exact IHi].
  - apply Hd. induction items as [| [k x] items IHi]; constructor; [apply IH | exact IHi].
  - apply Hn. induction props as [| [k x] props IHi]; constructor; [apply IH | exact IHi].
  - apply Hr. induction props as [| [k x] props IHi]; constructor; [apply IH | exact IHi].
  - apply Hp. induction rels as [| x rels IHi]; constructor; [apply IH | exact IHi].
Qed.

Lemma convert_plain_id (v : PyVal A) :
  plain v = true -> _neo4j_value_to_python v = v.
Proof.
  induction v as [a | items IH | items IH | props IH | props IH | rels IH]
    using PyVal_nested_ind; simpl; intros Hp; try discriminate; [reflexivity | |].
  - f_equal. induction IH as [| x items Hx _ IHi]; [reflexivity |].
    simpl in Hp. apply andb_true_iff in Hp as [Hp1 Hp2].
    simpl. rewrite (Hx Hp1), (IHi Hp2). reflexivity.
  - f_equal. induction IH as [| [k x] items Hx _ IHi]; [reflexivity |].
    simpl in Hp. apply andb_true_iff in Hp as [Hp1 Hp2].
    simpl in *. rewrite (Hx Hp1), (IHi Hp2). reflexivity.
Qed.

Lemma convert_is_plain (v : PyVal A) :
  plain_props v = true -> plain (_neo4j_value_to_python v) = true.
Proof.
  induction v as [a | items IH | items IH | props IH | props IH | rels IH]
    using PyVal_nested_ind; simpl; intros Hp; try reflexivity; try exact Hp.
  - induction IH as [| x items Hx _ IHi]; [reflexivity |].
    simpl in Hp. apply andb_true_iff in Hp as [Hp1 Hp2].
    simpl. rewrite (Hx Hp1), (IHi Hp2). reflexivity.
  - induction IH as [| [k x] items Hx _ IHi]; [reflexivity |].
    simpl in Hp. apply andb_true_iff in Hp as [Hp1 Hp2].
    simpl in *. rewrite (Hx Hp1), (IHi Hp2). reflexivity.
  - induction IH as [| x items Hx _ IHi]; [reflexivity |].
    simpl in Hp. apply andb_true_iff in Hp as [Hp1 Hp2].
    simpl. rewrite (Hx Hp1), (IHi Hp2). reflexivity.
Qed.

(** X27.  [_neo4j_value_to_python] leaves no node, relationship or path in a
    value, however deep they sit in lists and dictionaries, as long as the
    properties of nodes and relationships are themselves plain; converting
    a second time changes nothing, and a plain value is returned as it
    is. *)
Theorem neo4j_value_to_python_is_plain (v : PyVal A) :
  plain_props v = true ->
  plain (_neo4j_value_to_python v) = true /\
  _neo4j_value_to_python (_neo4j_value_to_python v) = _neo4j_value_to_python v /\
  (plain v = true -> _neo4j_value_to_python v = v).
Proof.
  intros Hp. pose proof (convert_is_plain v Hp) as Hplain.
  split_and!; [exact Hplain | apply convert_plain_id; exact Hplain | apply convert_plain_id].
Qed.

End Plain_values.

Lemma neo4j_value_to_python_is_plain_witness :
  _neo4j_value_to_python
    (PList [PNode [("name", PScalar 1)]; PPath [PRel [("since", PScalar 2)]]]) =
  PList [PDict [("name", PScalar 1)]; PList [PDict [("since", PScalar 2)]]].
Proof.
  destruct (neo4j_value_to_python_is_plain (A:=nat)
              (PList [PNode [("name", PScalar 1)]; PPath [PRel [("since", PScalar 2)]]])
              eq_refl) as (_ & _ & _).
  reflexivity.
Defined.

(** ** The [%neo4j] magic and the env file *)

Module Env_file_facts.
Import Connection.

Lemma or_opt_truthy a b s : a = Some s -> truthy s = true -> or_opt a b = Some s.
Proof. intros -> Ht. simpl. rewrite Ht. reflexivity. Qed.

Lemma or_str_truthy a b s : a = Some s -> truthy s = true -> or_str a b = s.
Proof. intros -> Ht. simpl. rewrite Ht. reflexivity. Qed.

(** X28.  What is given on the line wins over the env file and over the
    environment: with a URI, a user, a password and a database on the line,
    and an env file that is there and can be read, the magic connects with
    exactly these four, whatever pairs the file holds and whatever the
    environment holds. *)
Theorem neo4j_magic_line_wins `{Lib : Neo4jLib} fs fs' env env' args s path u n p d
    pairs pairs' :
  arg_close args = false -> arg_status args = false ->
  arg_env_file args = Some path -> truthy path = true ->
  dotenv_installed fs = true -> file_exists fs path = Return true ->
  dotenv_values fs path = Return pairs ->
  dotenv_installed fs' = true -> file_exists fs' path = Return true ->
  dotenv_values fs' path = Return pairs' ->
  arg_uri args = Some u -> truthy u = true ->
  arg_username args = Some n -> truthy n = true ->
  arg_password args = Some p -> truthy p = true ->
  arg_database args = Some d -> truthy d = true ->
  neo4j fs env args s = neo4j fs' env' args s /\
  fst (fst (neo4j fs env args s)) =
    fst (connect env (Some u) (Some n) (Some p) (Some d) s) /\
  requested_config env (Some u) (Some n) (Some p) (Some d) =
    {| uri := u; username := n; password := p; database := d |}.
Proof.
  intros Hc Hs Hf Hpath Hi He Hv Hi' He' Hv' Hu Htu Hn Htn Hp Htp Hd Htd.
  assert (Hcfg : forall e, requested_config e (Some u) (Some n) (Some p) (Some d) =
                           {| uri := u; username := n; password := p; database := d |}).
  { intros e. unfold requested_config, new_config.
    rewrite (or_str_truthy (Some n) _ n eq_refl Htn),
            (or_str_truthy (Some p) _ p eq_refl Htp),
            (or_str_truthy (Some d) _ d eq_refl Htd),
            (or_str_truthy (Some d) _ d eq_refl Htd). reflexivity. }
  assert (Henv : connect env (Some u) (Some n) (Some p) (Some d) s =
                 connect env' (Some u) (Some n) (Some p) (Some d) s).
  { unfold connect. cbv zeta. rewrite (Hcfg env), (Hcfg env'). reflexivity. }
  assert (Hrun : forall f e kv,
             dotenv_installed f = true -> file_exists f path = Return true ->
             dotenv_values f path = Return kv ->
             neo4j f e args s =
             match connect e (Some u) (Some n) (Some p) (Some d) s with
             | (s', Return _) =>
                 match status_html s' with
                 | Return st => (s', [] ++ [ConnectedShown st], None)
                 | Raise ex => (s', [] ++ [ConnectionErrorHtml ex], None)
                 end
             | (s', Raise ex) => (s', [] ++ [ConnectionErrorHtml ex], None)
             end).
  { intros f e kv Hfi Hfe Hfv. unfold neo4j, _load_env_file.
    rewrite Hc, Hs, Hf. simpl truthy_opt. rewrite Hpath. simpl default.
    rewrite Hfi, Hfe, Hfv. simpl negb. cbv iota.
    rewrite (or_opt_truthy _ _ u Hu Htu), (or_opt_truthy _ _ n Hn Htn),
            (or_opt_truthy _ _ p Hp Htp), (or_opt_truthy _ _ d Hd Htd).
    reflexivity. }
  split_and!.
  - rewrite (Hrun fs env pairs Hi He Hv), (Hrun fs' env' pairs' Hi' He' Hv'), Henv.
    reflexivity.
  - rewrite (Hrun fs env pairs Hi He Hv).
    destruct (connect env (Some u) (Some n) (Some p) (Some d) s) as [s' [[] | ex]];
      [destruct (status_html s') |]; reflexivity.
  - apply Hcfg.
Qed.

Lemma neo4j_magic_line_wins_witness :
  neo4j (Lib:=toy_lib) toy_files ∅
    {| arg_uri := Some "bolt://a"; arg_username := Some "alice";
       arg_password := Some "secret"; arg_database := Some "movies";
       arg_env_file := Some ".env"; arg_close := false; arg_status := false |}
    toy_initial =
  neo4j (Lib:=toy_lib) toy_files (<["NEO4J_USERNAME" := "bob"]> ∅)
    {| arg_uri := Some "bolt://a"; arg_username := Some "alice";
       arg_password := Some "secret"; arg_database := Some "movies";
       arg_env_file := Some ".env"; arg_close := false; arg_status := false |}
    toy_initial.
Proof.
  apply (neo4j_magic_line_wins (Lib:=toy_lib) toy_files toy_files ∅
           (<["NEO4J_USERNAME" := "bob"]> ∅) _ toy_initial ".env"
           "bolt://a" "alice" "secret" "movies"
           (<["NEO4J_URI" := "bolt://file:7687"]> ∅)
           (<["NEO4J_URI" := "bolt://file:7687"]> ∅)); reflexivity.
Defined.

(** An env file that is there and is not text: the exception of
    [dotenv_values] leaves the magic, and nothing is connected. *)
Example unreadable_env_file_raises :
  neo4j (Lib:=toy_lib) binary_files ∅
    {| arg_uri := Some "bolt://a"; arg_username := None; arg_password := None;
       arg_database := None; arg_env_file := Some ".env";
       arg_close := false; arg_status := false |}
    toy_initial =
  (toy_initial, [], Some (LibError (Lib:=toy_lib) "UnicodeDecodeError")).
Proof. reflexivity. Qed.

End Env_file_facts.
